(** * API-Grabber: the recording optimizer and the session stop

    A shallow embedding of [src/recorder/DataOptimizer.ts] (the passes of
    [DataOptimizer.optimize]) and of the part of
    [src/recorder/RecorderEngine.ts] that assembles a [Recording]
    ([framenavigated] handler and [stopRecording]), with the properties of
    the design document stated over them.

    Conventions of the embedding.
    - JavaScript strings are [string]; the text handled here (selectors,
      button labels, URLs, header names) is taken to be ASCII, so
      [toLowerCase]/[toUpperCase] act on the letters A-Z/a-z only.
    - Timestamps are integer milliseconds ([Date.now()]), modelled in [Z].
    - An optional field [f?: T] is [option T]; [undefined] is [None].
    - A [Map] that is only looked up and set is a [gmap]; a [Map] or object
      whose iteration order is observable is an association list in
      insertion order.
    - JavaScript numbers that are divided are IEEE doubles ([float]). *)

From Stdlib Require Import ZArith Ascii String List Bool Lia.
From Stdlib Require Import Floats DecimalString.
From stdpp Require Import gmap strings list fin_maps.

Local Open Scope Z_scope.

(** ** JavaScript string primitives *)

Module JS.

Definition lower_ascii (c : ascii) : ascii :=
  let n := nat_of_ascii c in
  if ((65 <=? n)%nat && (n <=? 90)%nat)%bool then ascii_of_nat (n + 32) else c.

Definition upper_ascii (c : ascii) : ascii :=
  let n := nat_of_ascii c in
  if ((97 <=? n)%nat && (n <=? 122)%nat)%bool then ascii_of_nat (n - 32) else c.

(** [s.toLowerCase()] and [s.toUpperCase()]. *)
Fixpoint toLowerCase (s : string) : string :=
  match s with
  | EmptyString => EmptyString
  | String c s' => String (lower_ascii c) (toLowerCase s')
  end.

Fixpoint toUpperCase (s : string) : string :=
  match s with
  | EmptyString => EmptyString
  | String c s' => String (upper_ascii c) (toUpperCase s')
  end.

(** [s.startsWith(p)]. *)
Fixpoint startsWith (p s : string) : bool :=
  match p, s with
  | EmptyString, _ => true
  | String _ _, EmptyString => false
  | String a p', String b s' => if Ascii.eqb a b then startsWith p' s' else false
  end.

(** [s.includes(sub)]: [sub] occurs at some offset of [s]. *)
Fixpoint includes (s sub : string) : bool :=
  startsWith sub s ||
  match s with
  | EmptyString => false
  | String _ s' => includes s' sub
  end.

(** [s.split(c)[0]]: the part of [s] before the first [c], all of [s] when
    [c] does not occur. *)
Fixpoint before_first (c : ascii) (s : string) : string :=
  match s with
  | EmptyString => EmptyString
  | String a s' => if Ascii.eqb a c then EmptyString else String a (before_first c s')
  end.

(** [s.replace(/\/$/, '')]: the pattern has no [m] flag, so [$] is the end
    of the input and at most the final character is removed. *)
Fixpoint strip_trailing_slash (s : string) : string :=
  match s with
  | EmptyString => EmptyString
  | String a EmptyString => if Ascii.eqb a "/" then EmptyString else s
  | String a s' => String a (strip_trailing_slash s')
  end.

(** [s.substring(n)]. *)
Fixpoint drop (n : nat) (s : string) : string :=
  match n, s with
  | S n', String _ s' => drop n' s'
  | _, _ => s
  end.

(** [s.substring(0, n)]. *)
Definition substring0 (n : nat) (s : string) : string := String.substring 0 n s.

(** Truthiness of an optional string: [undefined] and [''] are falsy. *)
Definition truthy (o : option string) : bool :=
  match o with
  | Some s => negb (String.eqb s "")
  | None => false
  end.

(** [a || b] on optional strings. *)
Definition or (a b : option string) : option string :=
  if truthy a then a else b.

(** [a || ''] where a string is expected. *)
Definition or_empty (a : option string) : string :=
  match a with Some s => s | None => "" end.

(** A value interpolated in a template literal: [`${x}`]. *)
Definition template (o : option string) : string :=
  match o with Some s => s | None => "undefined" end.

(** [o?.includes(sub)] used as a condition: [undefined] is falsy. *)
Definition opt_includes (o : option string) (sub : string) : bool :=
  match o with Some s => includes s sub | None => false end.

(** [keywords.some(k => s.includes(k))]. *)
Definition some_includes (keywords : list string) (s : string) : bool :=
  existsb (includes s) keywords.

End JS.

(** ** Data model ([src/types/index.ts]) *)

Inductive ActionType := click | input | navigate | wallet | wait | submit.

Global Instance ActionType_eq_dec : EqDecision ActionType.
Proof. solve_decision. Defined.

(** The string a [RecordedAction['type']] is at run time. *)
Definition ActionType_str (t : ActionType) : string :=
  match t with
  | click => "click" | input => "input" | navigate => "navigate"
  | wallet => "wallet" | wait => "wait" | submit => "submit"
  end.

(** [RecordedAction['element']].  The geometry and style sub-records
    ([position], [computed], [parents], [frameInfo]) are never read by the
    code embedded here and are left out.  [attributes] is the object's
    entries in [Object.entries] order. *)
Record ElementInfo := {
  e_tag : string;
  e_text : option string;
  e_value : option string;
  e_placeholder : option string;
  e_type : option string;
  e_href : option string;
  e_className : option string;
  e_id : option string;
  e_name : option string;
  e_role : option string;
  e_ariaLabel : option string;
  e_innerHTML : option string;
  e_outerHTML : option string;
  e_attributes : option (list (string * string))
}.

Record RecordedAction := {
  a_id : string;
  a_type : ActionType;
  a_timestamp : Z;
  a_selector : option string;
  a_xpath : option string;
  a_value : option string;
  a_url : option string;
  a_element : option ElementInfo;
  a_walletMethod : option string;
  a_isSwapAction : bool;
  a_isAmountInput : bool
}.

Record Response := {
  resp_status : Z;
  resp_headers : option (list (string * string))
}.

Record NetworkRequest := {
  n_id : string;
  n_timestamp : Z;
  n_url : string;
  n_method : string;
  n_headers : option (list (string * string));
  n_postData : option string;
  n_resourceType : option string;
  n_response : option Response
}.

(** The fields of [Recording] that the optimizer reads. *)
Record Recording := {
  r_id : string;
  r_url : string;
  r_duration : Z;
  r_actions : list RecordedAction;
  r_networkRequests : list NetworkRequest
}.

(** ** Pass 1: [DataOptimizer.removeDuplicates] *)

Definition duplicateThreshold : Z := 1000.

(** [generateActionKey]: [`${action.type}_${action.selector || action.url || action.value}`]. *)
Definition generateActionKey (action : RecordedAction) : string :=
  ActionType_str (a_type action) +:+ "_" +:+
  JS.template (JS.or (JS.or (a_selector action) (a_url action)) (a_value action)).

(** The loop state: [actionMap], [uniqueActions] and the
    [summary.duplicatesRemoved] counter. *)
Record DedupState := {
  actionMap : gmap string RecordedAction;
  uniqueActions : list RecordedAction;
  duplicatesRemoved : nat
}.

Definition dedup_init : DedupState :=
  {| actionMap := ∅; uniqueActions := []; duplicatesRemoved := 0 |}.

(** The test of the loop body:
    [!existing || (action.timestamp - existing.timestamp) > this.duplicateThreshold]. *)
Definition dedup_keeps (m : gmap string RecordedAction) (action : RecordedAction) : bool :=
  match m !! generateActionKey action with
  | None => true
  | Some existing => duplicateThreshold <? a_timestamp action - a_timestamp existing
  end.

Definition dedup_step (st : DedupState) (action : RecordedAction) : DedupState :=
  if dedup_keeps (actionMap st) action then
    {| actionMap := <[generateActionKey action := action]> (actionMap st);
       uniqueActions := uniqueActions st ++ [action];
       duplicatesRemoved := duplicatesRemoved st |}
  else
    {| actionMap := actionMap st;
       uniqueActions := uniqueActions st;
       duplicatesRemoved := S (duplicatesRemoved st) |}.

Definition dedup_run (actions : list RecordedAction) : DedupState :=
  fold_left dedup_step actions dedup_init.

Definition removeDuplicates (actions : list RecordedAction) : list RecordedAction :=
  uniqueActions (dedup_run actions).

(** ** [Array.prototype.sort] with a numeric comparator

    [xs.sort((a, b) => key(a) - key(b))] is a stable sort: it returns the
    one permutation of [xs] that is ordered by [key] and keeps elements of
    equal key in their original order.  Insertion sort computes it. *)

Section StableSort.
Context {A : Type} (key : A → Z).

Fixpoint sort_insert (x : A) (l : list A) : list A :=
  match l with
  | [] => [x]
  | y :: l' => if key x <=? key y then x :: l else y :: sort_insert x l'
  end.

Fixpoint sort_by (l : list A) : list A :=
  match l with
  | [] => []
  | x :: l' => sort_insert x (sort_by l')
  end.
End StableSort.

(** ** Pass 2: [DataOptimizer.extractEnhancedSwapFlow] *)

Inductive SwapKind :=
  SELECT_FROM | SELECT_TO | INPUT_AMOUNT | CLICK_SWAP | APPROVE | CONFIRM.

Global Instance SwapKind_eq_dec : EqDecision SwapKind.
Proof. solve_decision. Defined.

Record Metadata := {
  md_tokenAddress : option string;
  md_tokenSymbol : option string;
  md_amount : option string;
  md_price : option string;
  md_slippage : option string
}.

Record SwapAction := {
  s_id : nat;
  s_action : SwapKind;
  s_value : option string;
  s_selector : option string;
  s_timestamp : option Z;
  s_metadata : option Metadata
}.

(** The pattern [/\b(ETH|BTC|...|SUSHI)\b/i] of [extractEnhancedTokenInfo]. *)
Module TokenRegex.

Definition symbols : list string :=
  ["ETH"; "BTC"; "USDT"; "USDC"; "DAI"; "WETH"; "BNB"; "MATIC"; "SOL"; "ADA";
   "DOT"; "LINK"; "UNI"; "AAVE"; "COMP"; "MKR"; "YFI"; "CRV"; "BAL"; "SUSHI"].

(** [\w] *)
Definition is_word_char (c : ascii) : bool :=
  let n := nat_of_ascii c in
  ((48 <=? n) && (n <=? 57) || (65 <=? n) && (n <=? 90) ||
   (97 <=? n) && (n <=? 122) || (n =? 95))%nat.

Definition head_is_word (s : string) : bool :=
  match s with String c _ => is_word_char c | EmptyString => false end.

(** One alternative tried at the current offset; [prev_w] tells whether
    the character before the offset is a word character.  Every
    alternative ends in a letter, so the closing [\b] asks for a
    non-word character (or the end) after it. *)
Definition match_alt_at (prev_w : bool) (s alt : string) : option string :=
  let n := String.length alt in
  if xorb prev_w (head_is_word s)
     && JS.startsWith (JS.toLowerCase alt) (JS.toLowerCase s)
     && negb (head_is_word (JS.drop n s))
  then Some (JS.substring0 n s) else None.

Fixpoint first_alt (prev_w : bool) (s : string) (alts : list string) : option string :=
  match alts with
  | [] => None
  | alt :: alts' =>
      match match_alt_at prev_w s alt with
      | Some m => Some m
      | None => first_alt prev_w s alts'
      end
  end.

Fixpoint exec_from (prev_w : bool) (s : string) : option string :=
  match first_alt prev_w s symbols with
  | Some m => Some m
  | None =>
      match s with
      | EmptyString => None
      | String c s' => exec_from (is_word_char c) s'
      end
  end.

(** [s.match(re)[1]], [None] when there is no match. *)
Definition exec (s : string) : option string := exec_from false s.

End TokenRegex.

Definition elem_text_lower (e : ElementInfo) : string :=
  JS.toLowerCase (JS.or_empty (e_text e)).

(** [action.element?.text?.toLowerCase() || ''] *)
Definition action_text_lower (action : RecordedAction) : string :=
  match a_element action with
  | Some e => elem_text_lower e
  | None => ""
  end.

Definition isEnhancedTokenSelection (action : RecordedAction) (text : string) : bool :=
  bool_decide (a_type action = click) &&
  (JS.includes text "select token" ||
   JS.includes text "choose token" ||
   JS.includes text "token" ||
   match a_element action with
   | None => false
   | Some e =>
       JS.opt_includes (e_className e) "token-select" ||
       JS.opt_includes (e_className e) "token-button" ||
       bool_decide (e_role e = Some "token-selector") ||
       JS.includes (JS.or_empty (e_innerHTML e)) "token-symbol" ||
       JS.includes (JS.or_empty (e_innerHTML e)) "token-address"
   end).

Record TokenInfo := {
  ti_address : string;
  ti_symbol : string;
  ti_amount : option string
}.

(** The [for ... of Object.entries(element.attributes)] loop: the first
    entry whose key mentions token, symbol or address decides. *)
Fixpoint token_from_attributes (attrs : list (string * string)) : option TokenInfo :=
  match attrs with
  | [] => None
  | (key, value) :: attrs' =>
      if JS.includes key "token" || JS.includes key "symbol" || JS.includes key "address"
      then Some {| ti_address := value;
                   ti_symbol := JS.toUpperCase (JS.substring0 6 value);
                   ti_amount := None |}
      else token_from_attributes attrs'
  end.

Definition opt_bind_exec (o : option string) : option string :=
  match o with Some s => TokenRegex.exec s | None => None end.

Definition extractEnhancedTokenInfo (action : RecordedAction) : option TokenInfo :=
  match a_element action with
  | None => None
  | Some element =>
      match opt_bind_exec (e_text element) with
      | Some m => Some {| ti_address := "0x0"; ti_symbol := JS.toUpperCase m; ti_amount := None |}
      | None =>
          match
            match e_attributes element with
            | Some attrs => token_from_attributes attrs
            | None => None
            end
          with
          | Some ti => Some ti
          | None =>
              match opt_bind_exec (e_innerHTML element) with
              | Some m => Some {| ti_address := "0x0"; ti_symbol := JS.toUpperCase m; ti_amount := None |}
              | None => None
              end
          end
      end
  end.

(** The scan of [determineTokenDirection] over [nearbyActions]. *)
Fixpoint direction_cue (nearby : list RecordedAction) : option SwapKind :=
  match nearby with
  | [] => None
  | action :: rest =>
      let text := action_text_lower action in
      if JS.includes text "from" || JS.includes text "pay" ||
         JS.includes text "sell" || JS.includes text "input"
      then Some SELECT_FROM
      else if JS.includes text "to" || JS.includes text "receive" ||
              JS.includes text "buy" || JS.includes text "output"
      then Some SELECT_TO
      else direction_cue rest
  end.

Definition is_token_selection (a : SwapAction) : bool :=
  bool_decide (s_action a = SELECT_FROM) || bool_decide (s_action a = SELECT_TO).

(** [determineTokenDirection(actions, currentAction)].  [index] is
    [actions.indexOf(currentAction)]: the actions of a recording are distinct
    objects, so it is the position the loop has reached.
    [actions.slice(Math.max(0, index - 5), Math.min(actions.length, index + 5))]
    is [take] after [drop]; the subtraction on [nat] is the [Math.max]. *)
Definition determineTokenDirection
    (swapFlow : list SwapAction) (actions : list RecordedAction) (index : nat) : SwapKind :=
  let lo := (index - 5)%nat in
  let hi := Nat.min (length actions) (index + 5) in
  let nearbyActions := take (hi - lo) (drop lo actions) in
  match direction_cue nearbyActions with
  | Some d => d
  | None =>
      if (length (filter (λ a, is_token_selection a = true) swapFlow) =? 0)%nat
      then SELECT_FROM else SELECT_TO
  end.

Definition isEnhancedAmountField (action : RecordedAction) : bool :=
  match a_element action with
  | None => false
  | Some element =>
      let lower o := option_map JS.toLowerCase o in
      JS.opt_includes (lower (e_placeholder element)) "amount" ||
      JS.opt_includes (lower (e_placeholder element)) "0.0" ||
      JS.opt_includes (lower (e_placeholder element)) "enter amount" ||
      JS.opt_includes (lower (e_name element)) "amount" ||
      JS.opt_includes (lower (e_name element)) "quantity" ||
      JS.opt_includes (e_className element) "amount-input" ||
      JS.opt_includes (e_className element) "swap-input" ||
      bool_decide (e_type element = Some "number") ||
      bool_decide (e_type element = Some "text")
  end.

Record AmountInfo := {
  ai_amount : string;
  ai_price : option string;
  ai_slippage : option string
}.

(** The attribute loop of [extractAmountInfo]: no early exit, a later
    matching entry overwrites an earlier one. *)
Definition amount_attr_step (acc : option string * option string) (kv : string * string)
    : option string * option string :=
  let '(price, slippage) := acc in
  let '(key, value) := kv in
  (if JS.includes key "price" || JS.includes key "rate" then Some value else price,
   if JS.includes key "slippage" || JS.includes key "tolerance" then Some value else slippage).

Definition amount_or_zero (v : option string) : string :=
  if JS.truthy v then JS.or_empty v else "0".

Definition extractAmountInfo (action : RecordedAction) : AmountInfo :=
  match a_element action with
  | None => {| ai_amount := amount_or_zero (a_value action); ai_price := None; ai_slippage := None |}
  | Some element =>
      let '(price, slippage) :=
        match e_attributes element with
        | Some attrs => fold_left amount_attr_step attrs (None, None)
        | None => (None, None)
        end in
      {| ai_amount := amount_or_zero (a_value action); ai_price := price; ai_slippage := slippage |}
  end.

Definition swapKeywords : list string :=
  ["swap"; "exchange"; "trade"; "convert"; "execute"; "proceed"].
Definition approveKeywords : list string :=
  ["approve"; "allow"; "enable"; "unlock"; "permit"; "authorize"].
Definition confirmKeywords : list string :=
  ["confirm"; "execute"; "proceed"; "continue"; "submit"; "finalize"].

Definition isEnhancedSwapButton (text : string) : bool :=
  JS.some_includes swapKeywords (JS.toLowerCase text).
Definition isEnhancedApproveButton (text : string) : bool :=
  JS.some_includes approveKeywords (JS.toLowerCase text).
Definition isEnhancedConfirmButton (text : string) : bool :=
  JS.some_includes confirmKeywords (JS.toLowerCase text).

(** The loop state of [extractEnhancedSwapFlow]: [this.optimizedData.swapFlow]
    and the local [flowIndex]. *)
Record FlowState := {
  swapFlow : list SwapAction;
  flowIndex : nat
}.

Definition flow_push (st : FlowState) (mk : nat → SwapAction) : FlowState :=
  {| swapFlow := swapFlow st ++ [mk (flowIndex st)]; flowIndex := S (flowIndex st) |}.

(** [a.action === 'INPUT_AMOUNT' && a.timestamp! < action.timestamp] *)
Definition is_earlier_amount (action : RecordedAction) (a : SwapAction) : bool :=
  bool_decide (s_action a = INPUT_AMOUNT) &&
  match s_timestamp a with
  | Some t => t <? a_timestamp action
  | None => false
  end.

(** [swapFlow.find(p)] together with the position of what it returns:
    [find] yields the first element that satisfies [p], and the code then
    writes through that reference. *)
Fixpoint find_first {A} (p : A → bool) (l : list A) : option (nat * A) :=
  match l with
  | [] => None
  | x :: l' =>
      if p x then Some (0%nat, x)
      else match find_first p l' with
           | Some (i, y) => Some (S i, y)
           | None => None
           end
  end.

(** [lastInput.value = action.value; if (lastInput.metadata) lastInput.metadata.amount = action.value] *)
Definition update_amount_step (v : option string) (a : SwapAction) : SwapAction :=
  {| s_id := s_id a; s_action := s_action a;
     s_value := v;
     s_selector := s_selector a; s_timestamp := s_timestamp a;
     s_metadata :=
       match s_metadata a with
       | Some md => Some {| md_tokenAddress := md_tokenAddress md;
                            md_tokenSymbol := md_tokenSymbol md;
                            md_amount := v;
                            md_price := md_price md;
                            md_slippage := md_slippage md |}
       | None => None
       end |}.

Definition ts_or_nan_diff_gt (action : RecordedAction) (a : SwapAction) (d : Z) : bool :=
  match s_timestamp a with
  | Some t => d <? a_timestamp action - t
  | None => false
  end.

Definition token_branch
    (actions : list RecordedAction) (index : nat) (action : RecordedAction)
    (text : string) (st : FlowState) : FlowState :=
  if isEnhancedTokenSelection action text then
    match extractEnhancedTokenInfo action with
    | Some tokenInfo =>
        let direction := determineTokenDirection (swapFlow st) actions index in
        flow_push st (λ id,
          {| s_id := id;
             s_action := direction;
             s_value := Some (ti_symbol tokenInfo);
             s_selector := a_selector action;
             s_timestamp := Some (a_timestamp action);
             s_metadata := Some {| md_tokenAddress := Some (ti_address tokenInfo);
                                   md_tokenSymbol := Some (ti_symbol tokenInfo);
                                   md_amount := ti_amount tokenInfo;
                                   md_price := None;
                                   md_slippage := None |} |})
    | None => st
    end
  else st.

Definition new_amount_step (action : RecordedAction) (id : nat) : SwapAction :=
  let amountInfo := extractAmountInfo action in
  {| s_id := id;
     s_action := INPUT_AMOUNT;
     s_value := a_value action;
     s_selector := a_selector action;
     s_timestamp := Some (a_timestamp action);
     s_metadata := Some {| md_tokenAddress := None;
                           md_tokenSymbol := None;
                           md_amount := Some (ai_amount amountInfo);
                           md_price := ai_price amountInfo;
                           md_slippage := ai_slippage amountInfo |} |}.

Definition is_amount_input (action : RecordedAction) : bool :=
  bool_decide (a_type action = input) &&
  (a_isAmountInput action || isEnhancedAmountField action).

Definition amount_branch (action : RecordedAction) (st : FlowState) : FlowState :=
  if is_amount_input action then
    match find_first (is_earlier_amount action) (swapFlow st) with
    | None => flow_push st (new_amount_step action)
    | Some (j, lastInput) =>
        if ts_or_nan_diff_gt action lastInput 2000
        then flow_push st (new_amount_step action)
        else {| swapFlow := <[j := update_amount_step (a_value action) lastInput]> (swapFlow st);
                flowIndex := flowIndex st |}
    end
  else st.

Definition button_step (kind : SwapKind) (action : RecordedAction) (id : nat) : SwapAction :=
  {| s_id := id; s_action := kind; s_value := None;
     s_selector := a_selector action;
     s_timestamp := Some (a_timestamp action);
     s_metadata := None |}.

Definition button_branch
    (recognise : string → bool) (kind : SwapKind)
    (action : RecordedAction) (buttonText : string) (st : FlowState) : FlowState :=
  if bool_decide (a_type action = click) && recognise buttonText
  then flow_push st (button_step kind action)
  else st.

(** One iteration of the [for (const action of actions)] loop. *)
Definition flow_step
    (actions : list RecordedAction) (index : nat) (action : RecordedAction)
    (st : FlowState) : FlowState :=
  match a_element action with
  | None => st
  | Some element =>
      let text := elem_text_lower element in
      let buttonText := JS.or_empty (e_text element) in
      let st := token_branch actions index action text st in
      let st := amount_branch action st in
      let st := button_branch isEnhancedSwapButton CLICK_SWAP action buttonText st in
      let st := button_branch isEnhancedApproveButton APPROVE action buttonText st in
      button_branch isEnhancedConfirmButton CONFIRM action buttonText st
  end.

Fixpoint flow_loop
    (actions : list RecordedAction) (index : nat) (rest : list RecordedAction)
    (st : FlowState) : FlowState :=
  match rest with
  | [] => st
  | action :: rest' => flow_loop actions (S index) rest' (flow_step actions index action st)
  end.

(** [a.timestamp || 0] *)
Definition ts_or_0 (a : SwapAction) : Z :=
  match s_timestamp a with Some t => t | None => 0 end.

Definition set_id (index : nat) (a : SwapAction) : SwapAction :=
  {| s_id := index; s_action := s_action a; s_value := s_value a;
     s_selector := s_selector a; s_timestamp := s_timestamp a;
     s_metadata := s_metadata a |}.

(** The sort by timestamp and the [forEach] that reassigns the ids. *)
Definition flow_finish (flow : list SwapAction) : list SwapAction :=
  imap set_id (sort_by ts_or_0 flow).

Definition extractEnhancedSwapFlow (actions : list RecordedAction) : list SwapAction :=
  flow_finish (swapFlow (flow_loop actions 0 actions {| swapFlow := []; flowIndex := 0 |})).

(** ** Pass 3: [DataOptimizer.extractEnhancedApiPatterns] *)

Inductive Purpose :=
  P_quote | P_swap | P_approve | P_token_list | P_price | P_balance | P_gas | P_other.

Global Instance Purpose_eq_dec : EqDecision Purpose.
Proof. solve_decision. Defined.

Definition determineEnhancedApiPurpose (url : string) : Purpose :=
  let urlLower := JS.toLowerCase url in
  let has := JS.includes urlLower in
  if has "/quote" || has "/price" || has "/rate" then P_quote
  else if has "/swap" || has "/execute" || has "/trade" then P_swap
  else if has "/approve" || has "/allowance" || has "/permit" then P_approve
  else if has "/token" || has "/list" || has "/pairs" then P_token_list
  else if has "/balance" || has "/account" then P_balance
  else if has "/gas" || has "/estimate" then P_gas
  else P_other.

(** What the code reads of a [URL] object. [searchParams] is the sequence
    that [urlObj.searchParams.forEach] visits. *)
Record URL := {
  origin : string;
  pathname : string;
  searchParams : list (string * string)
}.

(** A JavaScript object with string keys as its entries in insertion order;
    [obj[key] = value] overwrites in place or appends. *)
Fixpoint obj_set (key value : string) (o : list (string * string)) : list (string * string) :=
  match o with
  | [] => [(key, value)]
  | (k, v) :: o' =>
      if String.eqb k key then (k, value) :: o' else (k, v) :: obj_set key value o'
  end.

Fixpoint obj_get (key : string) (o : list (string * string)) : option string :=
  match o with
  | [] => None
  | (k, v) :: o' => if String.eqb k key then Some v else obj_get key o'
  end.

Definition importantHeaders : list string :=
  ["content-type"; "authorization"; "x-api-key"; "referer"].

Definition MASKED : string := "***MASKED***".

(** [importantHeaders.includes(key.toLowerCase())] *)
Definition is_important (key : string) : bool :=
  existsb (String.eqb (JS.toLowerCase key)) importantHeaders.

Definition is_sensitive (key : string) : bool :=
  String.eqb (JS.toLowerCase key) "authorization" ||
  String.eqb (JS.toLowerCase key) "x-api-key".

Definition sanitize_step (sanitized : list (string * string)) (kv : string * string)
    : list (string * string) :=
  let '(key, value) := kv in
  if is_important key then
    if is_sensitive key then obj_set key MASKED sanitized
    else obj_set key value sanitized
  else sanitized.

Definition sanitizeHeaders (headers : option (list (string * string))) : list (string * string) :=
  match headers with
  | None => []
  | Some entries => fold_left sanitize_step entries []
  end.

Record ResponsePattern := {
  rp_hasResponse : bool;
  rp_statusCode : option Z;
  rp_contentType : option string
}.

Definition extractResponsePattern (request : NetworkRequest) : ResponsePattern :=
  {| rp_hasResponse := bool_decide (is_Some (n_response request));
     rp_statusCode := option_map resp_status (n_response request);
     rp_contentType :=
       match n_response request with
       | Some r => match resp_headers r with
                   | Some h => obj_get "content-type" h
                   | None => None
                   end
       | None => None
       end |}.

Record ApiEndpoint := {
  ep_url : string;
  ep_method : string;
  ep_purpose : Purpose;
  ep_params : list (string * string);
  ep_headers : list (string * string);
  ep_responsePattern : ResponsePattern
}.

(** The [URL] constructor belongs to the JavaScript runtime, not to the
    repository; the passes that call it take it as [new_URL], with [None]
    standing for the [TypeError] it throws on a string that is not an
    absolute URL. *)
Section WithURL.
Variable new_URL : string → option URL.

(** [normalizeUrl]: the [try] branch when [new URL(url)] succeeds, the
    [catch] branch when it throws. *)
Definition normalizeUrl (url : string) : string :=
  match new_URL url with
  | Some urlObj => JS.strip_trailing_slash (origin urlObj +:+ pathname urlObj)
  | None => JS.strip_trailing_slash (JS.before_first "?" url)
  end.

Definition extractParams (url : string) : list (string * string) :=
  match new_URL url with
  | Some urlObj => fold_left (λ params kv, obj_set kv.1 kv.2 params) (searchParams urlObj) []
  | None => []
  end.

Definition api_key (request : NetworkRequest) : string :=
  n_method request +:+ "_" +:+ normalizeUrl (n_url request).

(** [apiMap.has(key)] *)
Definition api_has (key : string) (apiMap : list (string * ApiEndpoint)) : bool :=
  existsb (λ kv, String.eqb kv.1 key) apiMap.

Definition api_step (apiMap : list (string * ApiEndpoint)) (request : NetworkRequest)
    : list (string * ApiEndpoint) :=
  let url := n_url request in
  let purpose := determineEnhancedApiPurpose url in
  let key := api_key request in
  if api_has key apiMap then apiMap
  else apiMap ++ [(key, {| ep_url := normalizeUrl url;
                           ep_method := n_method request;
                           ep_purpose := purpose;
                           ep_params := extractParams url;
                           ep_headers := sanitizeHeaders (n_headers request);
                           ep_responsePattern := extractResponsePattern request |})].

(** [Array.from(apiMap.values())] after the loop. *)
Definition extractEnhancedApiPatterns (requests : list NetworkRequest) : list ApiEndpoint :=
  (fold_left api_step requests []).*2.
End WithURL.

(** ** Pass 4: [DataOptimizer.extractEssentialSelectors] *)

(** The four blocks of the loop body, in order. *)
Definition bind_token_buttons (selector text : string) (selectorMap : gmap string string)
    : gmap string string :=
  if JS.includes text "select" && JS.includes text "token" then
    if JS.includes text "from" || JS.includes text "pay"
    then <["fromTokenButton" := selector]> selectorMap
    else if JS.includes text "to" || JS.includes text "receive"
    then <["toTokenButton" := selector]> selectorMap
    else selectorMap
  else selectorMap.

Definition bind_amountInput (action : RecordedAction) (selector : string)
    (selectorMap : gmap string string) : gmap string string :=
  if bool_decide (a_type action = input) && isEnhancedAmountField action then
    match selectorMap !! "amountInput" with
    | None => <["amountInput" := selector]> selectorMap
    | Some _ => selectorMap
    end
  else selectorMap.

Definition bind_button (role : string) (recognise : string → bool)
    (element : ElementInfo) (selector : string) (selectorMap : gmap string string)
    : gmap string string :=
  if recognise (JS.or_empty (e_text element))
  then <[role := selector]> selectorMap else selectorMap.

(** One iteration; [!action.selector] also skips an empty selector. *)
Definition selector_step (selectorMap : gmap string string) (action : RecordedAction)
    : gmap string string :=
  match a_selector action, a_element action with
  | Some selector, Some element =>
      if String.eqb selector "" then selectorMap else
      let text := elem_text_lower element in
      let selectorMap := bind_token_buttons selector text selectorMap in
      let selectorMap := bind_amountInput action selector selectorMap in
      let selectorMap := bind_button "swapButton" isEnhancedSwapButton element selector selectorMap in
      bind_button "approveButton" isEnhancedApproveButton element selector selectorMap
  | _, _ => selectorMap
  end.

Definition extractEssentialSelectors (actions : list RecordedAction) : gmap string string :=
  fold_left selector_step actions ∅.

(** ** JavaScript numbers: the division of the summary *)

Module JSNumber.

(** A count ([array.length]) as a double. *)
Definition of_nat (n : nat) : float :=
  PrimFloat.of_uint63 (Uint63.of_Z (Z.of_nat n)).

Definition digits (n : Z) : string :=
  DecimalString.NilZero.string_of_uint (N.to_uint (Z.to_N n)).

(** The integer [n] for which [n / 10] is closest to [m * 2^e], the
    larger one on a tie. *)
Definition tenths (m : positive) (e : Z) : Z :=
  if 0 <=? e then 10 * Z.pos m * 2 ^ e
  else (20 * Z.pos m + 2 ^ (- e)) / 2 ^ (1 - e).

(** [x.toFixed(1)].  A non-finite [x] is printed by [Number::toString];
    the sign of a negative [x] is kept even when it rounds to zero.  At or
    beyond [1e21] JavaScript switches to exponent notation, which is not
    reproduced here: the ratio formatted below stays far below it. *)
Definition toFixed1 (x : float) : string :=
  match Prim2SF x with
  | S754_nan => "NaN"
  | S754_infinity s => if s then "-Infinity" else "Infinity"
  | S754_zero _ => "0.0"
  | S754_finite s m e =>
      let n := tenths m e in
      (if s then "-" else "") +:+ digits (n / 10) +:+ "." +:+ digits (n mod 10)
  end.

End JSNumber.

(** ** Passes 5 and 6: DEX detection and the summary *)

Inductive Level := simple | medium | complex.
Inductive Risk := low | medium_risk | high.

Record OptimizationSummary := {
  sum_originalActions : nat;
  sum_optimizedActions : nat;
  sum_duplicatesRemoved : nat;
  sum_compressionRatio : string;
  sum_swapDetected : bool;
  sum_dexType : option string;
  sum_swapComplexity : Level;
  sum_estimatedSuccessRate : Z;
  sum_riskLevel : Risk
}.

Definition join_space (l : list string) : string :=
  match l with
  | [] => ""
  | x :: l' => fold_left (λ acc s, acc +:+ " " +:+ s) l' x
  end.

(** [detectDexTypeAndComplexity]: dexType, swapComplexity,
    estimatedSuccessRate and riskLevel. *)
Definition detectDexTypeAndComplexity (recording_url : string) (apiEndpoints : list ApiEndpoint)
    : string * Level * Z * Risk :=
  let url := JS.toLowerCase recording_url in
  let apiUrls := join_space (map (λ e, JS.toLowerCase (ep_url e)) apiEndpoints) in
  if JS.includes url "uniswap" || JS.includes apiUrls "uniswap"
  then ("Uniswap", complex, 95, high)
  else if JS.includes url "pancakeswap" || JS.includes apiUrls "pancake"
  then ("PancakeSwap", medium, 90, medium_risk)
  else if JS.includes url "sushiswap" || JS.includes apiUrls "sushi"
  then ("SushiSwap", medium, 85, medium_risk)
  else if JS.includes url "1inch" || JS.includes apiUrls "1inch"
  then ("1inch", simple, 98, low)
  else if JS.includes url "jupiter" || JS.includes apiUrls "jupiter"
  then ("Jupiter", complex, 92, high)
  else if JS.includes url "raydium" || JS.includes apiUrls "raydium"
  then ("Raydium", complex, 93, high)
  else ("Unknown DEX", simple, 0, low).

(** The two lines of [calculateComprehensiveSummary] that compute the ratio:
    [((1 - (optimizedActions / originalActions)) * 100).toFixed(1)] followed
    by [`${ratio}%`]. *)
Definition compressionRatio (originalActions optimizedActions : nat) : string :=
  let ratio :=
    JSNumber.toFixed1
      (PrimFloat.mul
         (PrimFloat.sub PrimFloat.one
            (PrimFloat.div (JSNumber.of_nat optimizedActions) (JSNumber.of_nat originalActions)))
         (JSNumber.of_nat 100)) in
  ratio +:+ "%".

Record WalletAction := {
  w_type : string;
  w_method : option string;
  w_timestamp : Z
}.

Definition extractWalletActions (actions : list RecordedAction) : list WalletAction :=
  map (λ a, {| w_type := ActionType_str (a_type a);
               w_method := a_walletMethod a;
               w_timestamp := a_timestamp a |})
      (filter (λ a, a_type a = wallet) actions).

(** [OptimizedData] without the three analyses that [optimize] fills with
    constants ([balanceAnalysis], [chainAnalysis], [swapValidation]). *)
Record OptimizedData := {
  od_swapFlow : list SwapAction;
  od_apiEndpoints : list ApiEndpoint;
  od_essentialSelectors : gmap string string;
  od_walletActions : list WalletAction;
  od_summary : OptimizationSummary
}.

(** [DataOptimizer.optimize] *)
Definition optimize (new_URL : string → option URL) (recording : Recording) : OptimizedData :=
  let dedup := dedup_run (r_actions recording) in
  let uniqueActions := uniqueActions dedup in
  let swapFlow := extractEnhancedSwapFlow uniqueActions in
  let apiEndpoints := extractEnhancedApiPatterns new_URL (r_networkRequests recording) in
  let essentialSelectors := extractEssentialSelectors uniqueActions in
  let walletActions := extractWalletActions (r_actions recording) in
  let '(dexType, swapComplexity, estimatedSuccessRate, riskLevel) :=
    detectDexTypeAndComplexity (r_url recording) apiEndpoints in
  let originalActions := length (r_actions recording) in
  let optimizedActions := length swapFlow in
  {| od_swapFlow := swapFlow;
     od_apiEndpoints := apiEndpoints;
     od_essentialSelectors := essentialSelectors;
     od_walletActions := walletActions;
     od_summary :=
       {| sum_originalActions := originalActions;
          sum_optimizedActions := optimizedActions;
          sum_duplicatesRemoved := duplicatesRemoved dedup;
          sum_compressionRatio := compressionRatio originalActions optimizedActions;
          sum_swapDetected := bool_decide (0 < optimizedActions)%nat;
          sum_dexType := Some dexType;
          sum_swapComplexity := swapComplexity;
          sum_estimatedSuccessRate := estimatedSuccessRate;
          sum_riskLevel := riskLevel |} |}.

(** ** The session orchestrator ([src/recorder/RecorderEngine.ts]) *)

(** An entry of a document's [window.__recordedActions], as the click,
    input, submit and wallet listeners push it; [timestamp] is the
    [Date.now()] of the page. *)
Record PageAction := {
  p_type : ActionType;
  p_timestamp : Z;
  p_selector : option string;
  p_xpath : option string;
  p_value : option string;
  p_url : option string;
  p_element : option ElementInfo;
  p_method : option string;
  p_isSwapAction : bool;
  p_isAmountInput : bool
}.

(** The fields of [RecorderEngine] that [stopRecording] reads or writes.
    [uuid_calls] counts the calls of [uuidv4] so far. *)
Record Engine := {
  recording : bool;
  actions : list RecordedAction;
  networkRequests : list NetworkRequest;
  startTime : Z;
  recordingId : string;
  uuid_calls : nat
}.

Section RecorderEngine.
(** [uuidv4()]: the identifier returned by the [n]-th call. *)
Variable uuidv4 : nat → string.

Definition engine_new : Engine :=
  {| recording := false; actions := []; networkRequests := [];
     startTime := 0; recordingId := ""; uuid_calls := 0 |}.

(** The assignments at the head of [startRecording]; [now] is [Date.now()]. *)
Definition startRecording (now : Z) (eng : Engine) : Engine :=
  {| recording := true;
     recordingId := uuidv4 (uuid_calls eng);
     actions := [];
     networkRequests := [];
     startTime := now;
     uuid_calls := S (uuid_calls eng) |}.

(** [this.actions.push(a)] with a fresh id. *)
Definition push_action (mk : string → RecordedAction) (eng : Engine) : Engine :=
  {| recording := recording eng;
     recordingId := recordingId eng;
     actions := actions eng ++ [mk (uuidv4 (uuid_calls eng))];
     networkRequests := networkRequests eng;
     startTime := startTime eng;
     uuid_calls := S (uuid_calls eng) |}.

(** The [framenavigated] handler of [setupEnhancedListeners]:
    [isMainFrame] is [frame === this.page.mainFrame()]. *)
Definition on_framenavigated (now : Z) (isMainFrame : bool) (url : string) (eng : Engine)
    : Engine :=
  if isMainFrame && recording eng then
    push_action (λ id,
      {| a_id := id; a_type := navigate;
         a_timestamp := now - startTime eng;
         a_selector := None; a_xpath := None; a_value := None;
         a_url := Some url; a_element := None; a_walletMethod := None;
         a_isSwapAction := false; a_isAmountInput := false |}) eng
  else eng.

(** The body of [pageActions.forEach] in [stopRecording]. *)
Definition push_page_action (eng : Engine) (action : PageAction) : Engine :=
  push_action (λ id,
    {| a_id := id; a_type := p_type action;
       a_timestamp := p_timestamp action - startTime eng;
       a_selector := p_selector action; a_xpath := p_xpath action;
       a_value := p_value action; a_url := p_url action;
       a_element := p_element action; a_walletMethod := p_method action;
       a_isSwapAction := p_isSwapAction action;
       a_isAmountInput := p_isAmountInput action |}) eng.

(** The loop over [this.page.frames()]: a frame whose [evaluate] throws
    ([None]) is skipped. *)
Definition drain_frames (frames : list (option (list PageAction))) : list PageAction :=
  fold_left (λ pageActions frame,
               match frame with
               | Some frameActions => pageActions ++ frameActions
               | None => pageActions
               end) frames [].

(** [stopRecording]: the engine after the call and the [Recording] it
    returns.  [frames] is what each frame's buffer holds, [now] the
    [Date.now()] of the duration, [page_url] is [this.page.url()]. *)
Definition stopRecording
    (frames : list (option (list PageAction))) (now : Z) (page_url : string) (eng : Engine)
    : Engine * Recording :=
  let eng := {| recording := false; recordingId := recordingId eng;
                actions := actions eng; networkRequests := networkRequests eng;
                startTime := startTime eng; uuid_calls := uuid_calls eng |} in
  let pageActions := sort_by p_timestamp (drain_frames frames) in
  let eng := fold_left push_page_action pageActions eng in
  (eng,
   {| r_id := recordingId eng;
      r_url := page_url;
      r_duration := now - startTime eng;
      r_actions := actions eng;
      r_networkRequests := networkRequests eng |}).
End RecorderEngine.

(** ** A concrete [URL] constructor for plain http(s) URLs

    The runtime's constructor follows the WHATWG URL standard.  [HttpURL.parse]
    reproduces it on the strings
    [http(s)://host[:port][/path][?query][#fragment]] whose host is made of
    letters, digits, dots and hyphens with a last label that is not a number,
    whose path is made of unreserved characters without dot segments, and whose
    query needs no decoding; on these the standard performs no rewriting
    beyond lower-casing scheme and host, dropping a default port and turning
    an empty path into [/].  It answers [None] everywhere else, which is what
    the runtime does on a string with no scheme; it is used below at concrete
    URLs only. *)
Module HttpURL.

Definition is_digit (c : ascii) : bool :=
  let n := nat_of_ascii c in ((48 <=? n) && (n <=? 57))%nat.

Definition is_alpha (c : ascii) : bool :=
  let n := nat_of_ascii c in
  ((65 <=? n) && (n <=? 90) || (97 <=? n) && (n <=? 122))%nat.

Definition is_host_char (c : ascii) : bool :=
  is_alpha c || is_digit c || Ascii.eqb c "." || Ascii.eqb c "-".

Definition is_path_char (c : ascii) : bool :=
  is_host_char c || Ascii.eqb c "/" || Ascii.eqb c "_" || Ascii.eqb c "~".

Definition is_query_char (c : ascii) : bool :=
  is_host_char c || Ascii.eqb c "_" || Ascii.eqb c "~" || Ascii.eqb c "=" || Ascii.eqb c "&".

Fixpoint all_chars (p : ascii → bool) (s : string) : bool :=
  match s with
  | EmptyString => true
  | String c s' => p c && all_chars p s'
  end.

(** [s] cut in front of its first character that satisfies [stop]. *)
Fixpoint break_at (stop : ascii → bool) (s : string) : string * string :=
  match s with
  | EmptyString => (EmptyString, EmptyString)
  | String c s' =>
      if stop c then (EmptyString, s)
      else let '(a, b) := break_at stop s' in (String c a, b)
  end.

Definition tail (s : string) : string :=
  match s with String _ s' => s' | EmptyString => EmptyString end.

(** The pieces of a query between [&], each cut at its first [=]. *)
Fixpoint pairs_go (fuel : nat) (q : string) : list (string * string) :=
  match fuel with
  | O => []
  | S fuel' =>
      let '(piece, rest) := break_at (Ascii.eqb "&") q in
      let '(k, v) := break_at (Ascii.eqb "=") piece in
      let here := if String.eqb piece "" then [] else [(k, tail v)] in
      match rest with
      | EmptyString => here
      | String _ rest' => here ++ pairs_go fuel' rest'
      end
  end.

Definition pairs (q : string) : list (string * string) :=
  pairs_go (S (String.length q)) q.

(** The last dot-separated label of a host. *)
Fixpoint last_label (acc : string) (host : string) : string :=
  match host with
  | EmptyString => acc
  | String c host' =>
      if Ascii.eqb c "." then last_label EmptyString host'
      else last_label (acc +:+ String c EmptyString) host'
  end.

Definition host_ok (host : string) : bool :=
  negb (String.eqb host "") && all_chars is_host_char host &&
  negb (all_chars is_digit (last_label EmptyString host)) &&
  negb (JS.includes host "..") && negb (JS.startsWith "." host) &&
  negb (JS.startsWith "xn--" (JS.toLowerCase (last_label EmptyString host))) &&
  negb (JS.includes (JS.toLowerCase host) ".xn--") &&
  negb (JS.startsWith "xn--" (JS.toLowerCase host)).

Definition path_ok (path : string) : bool :=
  all_chars is_path_char path &&
  negb (JS.includes (path +:+ "/") "/./") &&
  negb (JS.includes (path +:+ "/") "/../").

Definition parse_after_scheme (scheme default_port rest : string) : option URL :=
  let '(authority, after) := break_at (λ c, Ascii.eqb c "/" || Ascii.eqb c "?" || Ascii.eqb c "#") rest in
  let '(host, port_part) := break_at (Ascii.eqb ":") authority in
  let port := tail port_part in
  let '(path, after_path) := break_at (λ c, Ascii.eqb c "?" || Ascii.eqb c "#") after in
  let '(query_part, _) := break_at (Ascii.eqb "#") after_path in
  let query := tail query_part in
  if host_ok host && all_chars is_digit port
     && (String.eqb port_part "" || negb (String.eqb port ""))
     && (String.length port <=? 4)%nat
     && negb (JS.startsWith "0" port)
     && path_ok path && all_chars is_query_char query
  then
    let shown_port :=
      if String.eqb port "" || String.eqb port default_port then "" else ":" +:+ port in
    Some {| origin := scheme +:+ "://" +:+ JS.toLowerCase host +:+ shown_port;
            pathname := if String.eqb path "" then "/" else path;
            searchParams := pairs query |}
  else None.

Definition parse (s : string) : option URL :=
  if JS.startsWith "https://" (JS.toLowerCase (JS.substring0 8 s))
  then parse_after_scheme "https" "443" (JS.drop 8 s)
  else if JS.startsWith "http://" (JS.toLowerCase (JS.substring0 7 s))
  then parse_after_scheme "http" "80" (JS.drop 7 s)
  else None.

End HttpURL.

(** * Vocabulary of the statements and sample inputs *)

(** ** Deduplication *)

(** [b] is a record with the key of [a] that [a] does not come more than
    [duplicateThreshold] after: the comparison of the loop body. *)
Definition near (a b : RecordedAction) : Prop :=
  generateActionKey b = generateActionKey a ∧
  a_timestamp a - a_timestamp b ≤ duplicateThreshold.

Global Instance near_dec (a b : RecordedAction) : Decision (near a b).
Proof. unfold near. apply _. Defined.

(** The same with the record [b] not later than [a]. *)
Definition near_before (a b : RecordedAction) : Prop :=
  generateActionKey b = generateActionKey a ∧
  0 ≤ a_timestamp a - a_timestamp b ≤ duplicateThreshold.

(** The reference point of a key: the kept record that set it last. *)
Definition reference (k : string) (kept : list RecordedAction) : option RecordedAction :=
  last (filter (λ b, generateActionKey b = k) kept).

(** ** Order by a key *)

Section Ordered.
Context {A : Type} (key : A → Z).

(** Non-decreasing [key] along the list. *)
Definition ordered (l : list A) : Prop :=
  ∀ i j x y, (i < j)%nat → l !! i = Some x → l !! j = Some y → key x ≤ key y.
End Ordered.

(** ** Endpoints *)

Section ApiVocabulary.
Variable new_URL : string → option URL.

(** The key under which an endpoint sits in [apiMap]. *)
Definition endpoint_key (e : ApiEndpoint) : string :=
  ep_method e +:+ "_" +:+ ep_url e.

Definition from_request (request : NetworkRequest) (e : ApiEndpoint) : Prop :=
  ep_method e = n_method request ∧
  ep_url e = normalizeUrl new_URL (n_url request) ∧
  ep_purpose e = determineEnhancedApiPurpose (n_url request) ∧
  ep_headers e = sanitizeHeaders (n_headers request).

(** The loop invariant: keys are pairwise distinct, each entry sits under
    its own key and was built from one of the requests seen so far. *)
Definition api_inv (seen : list NetworkRequest) (apiMap : list (string * ApiEndpoint)) : Prop :=
  NoDup apiMap.*1 ∧
  Forall (λ kv, kv.1 = endpoint_key kv.2 ∧ ∃ req, req ∈ seen ∧ from_request req kv.2) apiMap.
End ApiVocabulary.

(** ** Headers *)

(** What every entry of the result satisfies. *)
Definition sanitized_entry (kv : string * string) : Prop :=
  In (JS.toLowerCase kv.1) importantHeaders ∧
  (JS.toLowerCase kv.1 = "authorization" ∨ JS.toLowerCase kv.1 = "x-api-key" →
   kv.2 = MASKED).

(** The entries of [h] with the value of every authorization and
    x-api-key header blanked. *)
Definition without_secrets (h : list (string * string)) : list (string * string) :=
  map (λ kv, (kv.1, if is_sensitive kv.1 then "" else kv.2)) h.

(** ** Sample sessions *)

(** A click on [selector] at time [t], with nothing else recorded. *)
Definition bare_click (id selector : string) (t : Z) : RecordedAction :=
  {| a_id := id; a_type := click; a_timestamp := t;
     a_selector := Some selector; a_xpath := None; a_value := None; a_url := None;
     a_element := None; a_walletMethod := None;
     a_isSwapAction := false; a_isAmountInput := false |}.

Module Example1.

(** An element of which only the visible text was captured. *)
Definition button (text : string) : ElementInfo :=
  {| e_tag := "button"; e_text := Some text; e_value := None; e_placeholder := None;
     e_type := None; e_href := None; e_className := None; e_id := None;
     e_name := None; e_role := None; e_ariaLabel := None; e_innerHTML := None;
     e_outerHTML := None; e_attributes := None |}.

Definition click_on (id : string) (selector : option string) (text : string) (t : Z)
    : RecordedAction :=
  {| a_id := id; a_type := click; a_timestamp := t;
     a_selector := selector; a_xpath := None; a_value := None; a_url := None;
     a_element := Some (button text); a_walletMethod := None;
     a_isSwapAction := false; a_isAmountInput := false |}.

(** The amount input; [element] is the descriptor that the input listener
    attaches to every record it pushes. *)
Definition amount_input (element : ElementInfo) : RecordedAction :=
  {| a_id := "2"; a_type := input; a_timestamp := 200;
     a_selector := Some "#amount"; a_xpath := None; a_value := Some "10"; a_url := None;
     a_element := Some element; a_walletMethod := None;
     a_isSwapAction := false; a_isAmountInput := true |}.

Definition actions (element : ElementInfo) : list RecordedAction :=
  [ click_on "1" (Some "#max-btn") "MAX" 100;
    amount_input element;
    click_on "3" None "Approve" 5100;
    click_on "4" None "Swap" 6200;
    click_on "5" None "Swap" 6250 ].

Definition recording (element : ElementInfo) (url : string) (requests : list NetworkRequest)
    : Recording :=
  {| r_id := "session"; r_url := url; r_duration := 7000;
     r_actions := actions element; r_networkRequests := requests |}.

(** What the document lists of a flow step. *)
Definition shown (a : SwapAction) : nat * SwapKind * option string * option Z :=
  (s_id a, s_action a, s_value a, s_timestamp a).

End Example1.

Module Example2.

Definition typed (id value : string) (t : Z) : RecordedAction :=
  {| a_id := id; a_type := input; a_timestamp := t;
     a_selector := Some "#amount"; a_xpath := None; a_value := Some value; a_url := None;
     a_element := Some {| e_tag := "input"; e_text := None; e_value := Some value;
                          e_placeholder := Some "Amount"; e_type := Some "text";
                          e_href := None; e_className := None; e_id := Some "amount";
                          e_name := None; e_role := None; e_ariaLabel := None;
                          e_innerHTML := None; e_outerHTML := None;
                          e_attributes := None |};
     a_walletMethod := None; a_isSwapAction := false; a_isAmountInput := true |}.

(** The amount field typed into at 0 ms, 3000 ms and 4500 ms. *)
Definition actions : list RecordedAction :=
  [typed "1" "1" 0; typed "2" "12" 3000; typed "3" "123" 4500].

End Example2.

Module Example3.

(** A click on a link of a single-page application, 100 ms into the
    session; the route change it starts reaches the [framenavigated]
    handler 5000 ms into the session. *)
Definition link_click : PageAction :=
  {| p_type := click; p_timestamp := 1100;
     p_selector := Some "#pool-link"; p_xpath := None; p_value := None;
     p_url := None; p_element := Some (Example1.button "Pool"); p_method := None;
     p_isSwapAction := false; p_isAmountInput := false |}.

Definition session (uuidv4 : nat → string) : Engine :=
  on_framenavigated uuidv4 6000 true "https://dex.example/pool"
    (startRecording uuidv4 1000 engine_new).

End Example3.

Definition get_request (id : string) (t : Z) (headers : option (list (string * string)))
    (response : option Response) (url : string) : NetworkRequest :=
  {| n_id := id; n_timestamp := t; n_url := url; n_method := "GET";
     n_headers := headers; n_postData := None; n_resourceType := Some "xhr";
     n_response := response |}.

(** * Further operations *)

(** ** Swap flow: where a step comes from *)

(** The most steps one action can add to the flow: a click can be taken
    for a token selection, a swap, an approve and a confirm button at once;
    an input adds at most one amount step; an action without element
    descriptor, or of another type, adds none. *)
Definition step_budget (action : RecordedAction) : nat :=
  match a_element action, a_type action with
  | Some _, click => 4
  | Some _, input => 1
  | _, _ => 0
  end.

(** [s] carries the timestamp and the selector of a click or input of
    [actions] that has an element descriptor, and it is an amount step
    exactly when that action is an input. *)
Definition step_from (actions : list RecordedAction) (s : SwapAction) : Prop :=
  ∃ a, a ∈ actions
       ∧ is_Some (a_element a)
       ∧ s_timestamp s = Some (a_timestamp a)
       ∧ s_selector s = a_selector a
       ∧ ((a_type a = click ∧ s_action s ≠ INPUT_AMOUNT)
          ∨ (a_type a = input ∧ s_action s = INPUT_AMOUNT)).

(** ** Selector harvesting: what one action offers to each role *)

(** The selector and element of an action that the loop does not skip. *)
Definition harvested (action : RecordedAction) : option (string * ElementInfo) :=
  match a_selector action, a_element action with
  | Some selector, Some element =>
      if String.eqb selector "" then None else Some (selector, element)
  | _, _ => None
  end.

Definition offers (test : RecordedAction → ElementInfo → bool) (action : RecordedAction)
    : option string :=
  match harvested action with
  | Some (selector, element) => if test action element then Some selector else None
  | None => None
  end.

Definition is_select_token (element : ElementInfo) : bool :=
  JS.includes (elem_text_lower element) "select" && JS.includes (elem_text_lower element) "token".

Definition is_from_side (element : ElementInfo) : bool :=
  JS.includes (elem_text_lower element) "from" || JS.includes (elem_text_lower element) "pay".

Definition is_to_side (element : ElementInfo) : bool :=
  JS.includes (elem_text_lower element) "to" || JS.includes (elem_text_lower element) "receive".

Definition offers_fromTokenButton : RecordedAction → option string :=
  offers (λ _ element, is_select_token element && is_from_side element).

Definition offers_toTokenButton : RecordedAction → option string :=
  offers (λ _ element, is_select_token element && negb (is_from_side element)
                       && is_to_side element).

Definition offers_amountInput : RecordedAction → option string :=
  offers (λ action _, bool_decide (a_type action = input) && isEnhancedAmountField action).

Definition offers_swapButton : RecordedAction → option string :=
  offers (λ _ element, isEnhancedSwapButton (JS.or_empty (e_text element))).

Definition offers_approveButton : RecordedAction → option string :=
  offers (λ _ element, isEnhancedApproveButton (JS.or_empty (e_text element))).

Definition selector_roles : list string :=
  ["fromTokenButton"; "toTokenButton"; "amountInput"; "swapButton"; "approveButton"].

(** ** The session orchestrator: network capture, memory guard, error ceiling *)

(** The condition under which the [request] listener of
    [setupNetworkMonitoring] records a request. *)
Definition request_relevant (url method : string) : bool :=
  (JS.includes url "/api/" || JS.includes url "/swap" || JS.includes url "/quote" ||
   JS.includes url "/transaction" || JS.includes url "/token" || JS.includes url "/price" ||
   JS.includes url "/liquidity" || JS.includes url "/pool" || JS.includes url ".json" ||
   JS.includes url "/v1/" || JS.includes url "/v2/" || JS.includes url "/v3/" ||
   String.eqb method "POST" || String.eqb method "PUT")
  && negb (JS.includes url ".png")
  && negb (JS.includes url ".jpg")
  && negb (JS.includes url ".css")
  && negb (JS.includes url ".js")
  && negb (JS.includes url "font")
  && negb (JS.includes url "favicon").

(** [this.memoryUsage] *)
Record MemoryUsage := {
  mu_actions : Z;
  mu_network : Z;
  mu_lastCleanup : Z
}.

(** The engine together with the two fields the guard and the error handler
    keep: [memoryUsage] and [errorCount]. *)
Record Session := {
  ses_engine : Engine;
  ses_memory : MemoryUsage;
  ses_errorCount : nat
}.

Definition maxErrors : nat := 10.

(** What [handleRecordingError] asks of the browser after counting the
    error. *)
Inductive Recovery := NoRecovery | ReloadPage | SetupListenersAgain.

(** [xs.slice(-keepCount)]: the last [keepCount] elements. *)
Definition slice_last {A} (keepCount : Z) (xs : list A) : list A :=
  drop (Z.to_nat (Z.of_nat (length xs) - keepCount)) xs.

(** [shouldCleanupMemory]; [now] is [Date.now()]. *)
Definition shouldCleanupMemory (now : Z) (mu : MemoryUsage) : bool :=
  (300000 <? now - mu_lastCleanup mu) ||
  (10000 <? mu_actions mu) ||
  (5000 <? mu_network mu).

Section Orchestrator.
Variable uuidv4 : nat → string.

(** The [request] listener. *)
Definition on_request
    (now : Z) (url method : string) (headers : list (string * string))
    (postData : option string) (resourceType : string) (eng : Engine) : Engine :=
  if negb (recording eng) then eng
  else if request_relevant url method then
    {| recording := recording eng;
       recordingId := recordingId eng;
       actions := actions eng;
       networkRequests :=
         networkRequests eng ++
         [ {| n_id := uuidv4 (uuid_calls eng);
              n_timestamp := now - startTime eng;
              n_url := url; n_method := method;
              n_headers := Some headers; n_postData := postData;
              n_resourceType := Some resourceType; n_response := None |} ];
       startTime := startTime eng;
       uuid_calls := S (uuid_calls eng) |}
  else eng.

(** [cleanupMemory] *)
Definition cleanupMemory (now : Z) (ses : Session) : Session :=
  let eng := ses_engine ses in
  let actions' :=
    if 5000 <? Z.of_nat (length (actions eng))
    then slice_last 3000 (actions eng) else actions eng in
  let networkRequests' :=
    if 3000 <? Z.of_nat (length (networkRequests eng))
    then slice_last 2000 (networkRequests eng) else networkRequests eng in
  {| ses_engine :=
       {| recording := recording eng; recordingId := recordingId eng;
          actions := actions'; networkRequests := networkRequests';
          startTime := startTime eng; uuid_calls := uuid_calls eng |};
     ses_memory := {| mu_actions := mu_actions (ses_memory ses);
                      mu_network := mu_network (ses_memory ses);
                      mu_lastCleanup := now |};
     ses_errorCount := ses_errorCount ses |}.

(** One firing of the interval of [startMemoryMonitoring]. *)
Definition memory_tick (now : Z) (ses : Session) : Session :=
  if negb (recording (ses_engine ses)) then ses
  else
    let ses := {| ses_engine := ses_engine ses;
                  ses_memory := {| mu_actions := Z.of_nat (length (actions (ses_engine ses)));
                                   mu_network :=
                                     Z.of_nat (length (networkRequests (ses_engine ses)));
                                   mu_lastCleanup := mu_lastCleanup (ses_memory ses) |};
                  ses_errorCount := ses_errorCount ses |} in
    if shouldCleanupMemory now (ses_memory ses) then cleanupMemory now ses else ses.

(** [handleRecordingError(error, context)]: the state after the call and
    the recovery it attempts. *)
Definition handleRecordingError (context : string) (ses : Session) : Session * Recovery :=
  let errorCount := S (ses_errorCount ses) in
  let eng := ses_engine ses in
  if (maxErrors <=? errorCount)%nat then
    ({| ses_engine := {| recording := false; recordingId := recordingId eng;
                         actions := actions eng; networkRequests := networkRequests eng;
                         startTime := startTime eng; uuid_calls := uuid_calls eng |};
        ses_memory := ses_memory ses;
        ses_errorCount := errorCount |}, NoRecovery)
  else
    ({| ses_engine := eng; ses_memory := ses_memory ses; ses_errorCount := errorCount |},
     if String.eqb context "frame-navigation" then ReloadPage
     else if String.eqb context "listener-setup" then SetupListenersAgain
     else NoRecovery).

(** [startRecording] on the whole state: it also resets [errorCount]. *)
Definition session_start (now : Z) (ses : Session) : Session :=
  {| ses_engine := startRecording uuidv4 now (ses_engine ses);
     ses_memory := ses_memory ses;
     ses_errorCount := 0 |}.

(** What reaches the engine while a session runs. *)
Inductive Event :=
| Navigated (now : Z) (isMainFrame : bool) (url : string)
| Requested (now : Z) (url method : string) (headers : list (string * string))
            (postData : option string) (resourceType : string)
| MemoryTick (now : Z)
| ErrorRaised (context : string).

Definition with_engine (f : Engine → Engine) (ses : Session) : Session :=
  {| ses_engine := f (ses_engine ses);
     ses_memory := ses_memory ses;
     ses_errorCount := ses_errorCount ses |}.

Definition handle (ses : Session) (ev : Event) : Session :=
  match ev with
  | Navigated now isMainFrame url => with_engine (on_framenavigated uuidv4 now isMainFrame url) ses
  | Requested now url method headers postData resourceType =>
      with_engine (on_request now url method headers postData resourceType) ses
  | MemoryTick now => memory_tick now ses
  | ErrorRaised context => (handleRecordingError context ses).1
  end.

Definition run (events : list Event) (ses : Session) : Session :=
  fold_left handle events ses.
End Orchestrator.

(** The state of a freshly constructed [RecorderEngine]; [created] is the
    [Date.now()] of the constructor. *)
Definition session_new (created : Z) : Session :=
  {| ses_engine := engine_new;
     ses_memory := {| mu_actions := 0; mu_network := 0; mu_lastCleanup := created |};
     ses_errorCount := 0 |}.

(** ** Vocabulary for sessions *)

(** The identifiers held by the engine were issued by distinct calls of
    [uuidv4], all among the calls made so far. *)
Definition ids_issued (uuidv4 : nat → string) (eng : Engine) : Prop :=
  ∃ (r : nat) (ia inn : list nat),
    recordingId eng = uuidv4 r
    ∧ a_id <$> actions eng = uuidv4 <$> ia
    ∧ n_id <$> networkRequests eng = uuidv4 <$> inn
    ∧ NoDup (r :: ia ++ inn)
    ∧ Forall (λ i, i < uuid_calls eng)%nat (r :: ia ++ inn).

(** A retained request passed the relevance test of the listener. *)
Definition recorded_ok (r : NetworkRequest) : Prop :=
  request_relevant (n_url r) (n_method r) = true.

(** How many of the events are errors. *)
Definition is_error (ev : Event) : bool :=
  match ev with ErrorRaised _ => true | _ => false end.

Definition error_count (events : list Event) : nat :=
  length (filter (λ ev, is_error ev = true) events).

(** A supply of identifiers that never repeats: the [n]-th is [n] letters
    long. *)
Fixpoint tally (n : nat) : string :=
  match n with
  | O => ""
  | S n' => String "x" (tally n')
  end.

(** ** Frame tracking ([src/recorder/FrameManager.ts]) *)

(** A frame as [FrameManager] sees it: [frame.url()], whether it is
    [page.mainFrame()], and the outcome of [frame.$(selector)]: [Some true]
    when an element is found, [Some false] when none is, [None] when the call
    throws (a detached frame). *)
Record Frame := {
  f_url : string;
  f_name : string;
  f_isMain : bool;
  f_query : string → option bool
}.

(** [page.frames()] and [page.$]. *)
Record Page := {
  pg_frames : list Frame;
  pg_query : string → option bool
}.

(** A [Frame | Page] value. *)
Inductive FrameOrPage := ThePage | AFrame (frame : Frame).

(** The [try { ... if (element) ... } catch {}] around a query. *)
Definition found (outcome : option bool) : bool :=
  match outcome with Some true => true | _ => false end.

(** The loop of [detectFrameContext] over [page.frames()]. *)
Fixpoint detect_in_frames (selector : string) (frames : list Frame) : option Frame :=
  match frames with
  | [] => None
  | frame :: frames' =>
      if f_isMain frame then detect_in_frames selector frames'
      else if found (f_query frame selector) then Some frame
      else detect_in_frames selector frames'
  end.

(** [detectFrameContext(selector)]: the result and the new value of
    [this.currentFrame]. *)
Definition detectFrameContext (page : Page) (selector : string) (currentFrame : FrameOrPage)
    : FrameOrPage * FrameOrPage :=
  if found (pg_query page selector) then (ThePage, currentFrame)
  else match detect_in_frames selector (pg_frames page) with
       | Some frame => (AFrame frame, AFrame frame)
       | None => (ThePage, currentFrame)
       end.

(** [findFrameByUrl(urlPattern)] *)
Fixpoint find_frame (urlPattern : string) (frames : list Frame) : option Frame :=
  match frames with
  | [] => None
  | frame :: frames' =>
      if JS.includes (f_url frame) urlPattern then Some frame
      else find_frame urlPattern frames'
  end.

Definition findFrameByUrl (page : Page) (urlPattern : string) : option Frame :=
  find_frame urlPattern (pg_frames page).

(** [waitForFrame(urlPattern, timeout)].  Each turn of the loop reads the
    clock for its test and then looks at the frames of the page as they are
    at that moment; [turns] lists these readings in order, [startTime] is
    the reading taken before the loop.  The value is [None] when the
    readings given end before the loop does. *)
Fixpoint waitForFrame (urlPattern : string) (timeout startTime : Z) (turns : list (Z * Page))
    : option (option Frame) :=
  match turns with
  | [] => None
  | (now, page) :: turns' =>
      if now - startTime <? timeout then
        match findFrameByUrl page urlPattern with
        | Some frame => Some (Some frame)
        | None => waitForFrame urlPattern timeout startTime turns'
        end
      else Some None
  end.

(** A frame that is skipped by the loop of [detectFrameContext]. *)
Definition passed_over (selector : string) (frame : Frame) : Prop :=
  f_isMain frame = true ∨ found (f_query frame selector) = false.

(** Successive clock readings at least [step] apart, the first not before
    [from]. *)
Fixpoint paced (step from : Z) (turns : list (Z * Page)) : Prop :=
  match turns with
  | [] => True
  | (now, _) :: turns' => from ≤ now ∧ paced step (now + step) turns'
  end.

(** ** Vocabulary for token selection and query parameters *)

(** The four words that make [determineTokenDirection] answer SELECT_FROM. *)
Definition has_from_cue (action : RecordedAction) : bool :=
  let text := action_text_lower action in
  JS.includes text "from" || JS.includes text "pay" ||
  JS.includes text "sell" || JS.includes text "input".

(** The values given to [key] in a query, in order. *)
Definition values_of (key : string) (params : list (string * string)) : list string :=
  omap (λ kv, if String.eqb kv.1 key then Some kv.2 else None) params.

(** * Properties *)

(** ** The model of the [URL] constructor at sample URLs *)

Example parse_quote :
  HttpURL.parse "https://x/api/quote?x=1&b=" =
  Some {| origin := "https://x"; pathname := "/api/quote";
          searchParams := [("x", "1"); ("b", "")] |}.
Proof. reflexivity. Qed.

Example parse_port :
  HttpURL.parse "HTTP://Dex.Example:8080" =
  Some {| origin := "http://dex.example:8080"; pathname := "/"; searchParams := [] |}.
Proof. reflexivity. Qed.

Example parse_no_scheme : HttpURL.parse "a//" = None.
Proof. reflexivity. Qed.


(** ** Pass 1: deduplication *)

Section Dedup.
Implicit Types (st : DedupState) (a b r : RecordedAction)
               (l pre post : list RecordedAction).

Lemma dedup_run_snoc l a : dedup_run (l ++ [a]) = dedup_step (dedup_run l) a.
Proof. unfold dedup_run. by rewrite fold_left_app. Qed.

Lemma dedup_run_app l post :
  dedup_run (l ++ post) = fold_left dedup_step post (dedup_run l).
Proof. unfold dedup_run. by rewrite fold_left_app. Qed.

Lemma dedup_step_prefix st a : uniqueActions st `prefix_of` uniqueActions (dedup_step st a).
Proof.
  unfold dedup_step. destruct (dedup_keeps _ _); simpl; [by apply prefix_app_r|done].
Qed.

Lemma dedup_fold_prefix post st :
  uniqueActions st `prefix_of` uniqueActions (fold_left dedup_step post st).
Proof.
  revert st. induction post as [|a post IH]; intros st; simpl; [done|].
  etrans; [apply dedup_step_prefix|apply IH].
Qed.

(** [actionMap] holds, for each key, the kept record that set it last. *)
Lemma actionMap_reference l k :
  actionMap (dedup_run l) !! k = reference k (removeDuplicates l).
Proof.
  unfold removeDuplicates, reference.
  induction l as [|a l IH] using rev_ind; [done|].
  rewrite dedup_run_snoc. unfold dedup_step.
  destruct (dedup_keeps _ _); simpl; [|done].
  rewrite filter_app, filter_cons, filter_nil.
  destruct (decide (generateActionKey a = k)) as [<-|Hne].
  - by rewrite lookup_insert_eq, last_snoc.
  - by rewrite lookup_insert_ne, app_nil_r.
Qed.

(** Kept records of one key are more than the threshold apart, so the
    reference point of a key carries its largest kept timestamp. *)
Lemma reference_latest l b :
  b ∈ removeDuplicates l →
  ∃ r, reference (generateActionKey b) (removeDuplicates l) = Some r ∧
       a_timestamp b ≤ a_timestamp r.
Proof.
  induction l as [|a l IH] using rev_ind.
  - unfold removeDuplicates; simpl. by intros ?%elem_of_nil.
  - intros Hb. pose proof (actionMap_reference (l ++ [a]) (generateActionKey b)) as Hm.
    rewrite <- Hm. unfold removeDuplicates in *.
    rewrite dedup_run_snoc in *. unfold dedup_step in *.
    pose proof (actionMap_reference l (generateActionKey a)) as Hma.
    unfold dedup_keeps in *.
    destruct (actionMap (dedup_run l) !! generateActionKey a) as [ex|] eqn:Hex.
    + destruct (duplicateThreshold <? a_timestamp a - a_timestamp ex) eqn:Hgap; simpl in *.
      * apply Z.ltb_lt in Hgap. unfold duplicateThreshold in Hgap.
        apply elem_of_app in Hb as [Hb|Hb%list_elem_of_singleton].
        -- destruct (IH Hb) as (r & Hr & Hle).
           destruct (decide (generateActionKey a = generateActionKey b)) as [Heq|Hne].
           ++ rewrite Heq, lookup_insert_eq. exists a. split; [done|].
              rewrite <- Heq in Hr. unfold removeDuplicates in Hma.
              rewrite <- Hma in Hr. simplify_eq. lia.
           ++ rewrite lookup_insert_ne by done. exists r. split; [|done].
              by rewrite actionMap_reference.
        -- subst b. rewrite lookup_insert_eq. exists a. split; [done|lia].
      * destruct (IH Hb) as (r & Hr & Hle). exists r. split; [|done].
        by rewrite actionMap_reference.
    + simpl in *.
      apply elem_of_app in Hb as [Hb|Hb%list_elem_of_singleton].
      * destruct (IH Hb) as (r & Hr & Hle).
        destruct (decide (generateActionKey a = generateActionKey b)) as [Heq|Hne].
        -- rewrite <- Heq in Hr. unfold removeDuplicates in Hma. congruence.
        -- rewrite lookup_insert_ne by done. exists r. split; [|done].
           by rewrite actionMap_reference.
      * subst b. rewrite lookup_insert_eq. exists a. split; [done|lia].
Qed.

Lemma reference_elem k kept r :
  reference k kept = Some r → r ∈ kept ∧ generateActionKey r = k.
Proof.
  unfold reference. intros H%last_Some_elem_of.
  by apply list_elem_of_filter in H as [? ?].
Qed.

(** The test of the loop, read on the kept records. *)
Lemma dedup_keeps_spec l a :
  dedup_keeps (actionMap (dedup_run l)) a = false ↔ Exists (near a) (removeDuplicates l).
Proof.
  unfold dedup_keeps. rewrite actionMap_reference.
  destruct (reference _ _) as [r|] eqn:Hr.
  - rewrite Z.ltb_ge. apply reference_elem in Hr as Hr'. destruct Hr' as [Hin Hk].
    split.
    + intros Hle. apply Exists_exists. exists r. by repeat split.
    + intros (b & Hb & Hkb & Hle)%Exists_exists.
      destruct (reference_latest _ _ Hb) as (r' & Hr' & Hle').
      rewrite Hkb, Hr in Hr'. simplify_eq. lia.
  - split; [done|].
    intros (b & Hb & Hkb & _)%Exists_exists.
    destruct (reference_latest _ _ Hb) as (r' & Hr' & _). congruence.
Qed.

Lemma removeDuplicates_snoc l a :
  removeDuplicates (l ++ [a]) =
  if decide (Exists (near a) (removeDuplicates l))
  then removeDuplicates l else removeDuplicates l ++ [a].
Proof.
  pose proof (dedup_keeps_spec l a) as Hspec.
  unfold removeDuplicates at 1. rewrite dedup_run_snoc. unfold dedup_step.
  destruct (dedup_keeps _ _) eqn:Hk; simpl.
  - destruct (decide _) as [He|]; [|done]. apply Hspec in He. done.
  - destruct (decide _) as [|Hne]; [done|]. destruct Hne. by apply Hspec.
Qed.

Lemma removeDuplicates_sublist l : removeDuplicates l `sublist_of` l.
Proof.
  induction l as [|a l IH] using rev_ind; [done|].
  rewrite removeDuplicates_snoc. destruct (decide _).
  - by apply sublist_inserts_r.
  - by apply sublist_app.
Qed.

Lemma duplicatesRemoved_count l :
  (duplicatesRemoved (dedup_run l) + length (removeDuplicates l) = length l)%nat.
Proof.
  unfold removeDuplicates.
  induction l as [|a l IH] using rev_ind; [done|].
  rewrite dedup_run_snoc, length_app. unfold dedup_step.
  destruct (dedup_keeps _ _); simpl; rewrite ?length_app; simpl; lia.
Qed.
End Dedup.

(** C3, as stated, fails on a sequence that is not in time order: after the
    kept click on [#a] at 5000 ms, the click on [#a] stamped 100 ms is
    removed, although no kept record of its key lies in the 1000 ms before
    it. *)
Lemma removeDuplicates_out_of_order :
  let A := bare_click "1" "#a" 5000 in
  let B := bare_click "2" "#a" 100 in
  removeDuplicates [A] = [A] ∧
  Forall (λ b, ¬ near_before B b) (removeDuplicates [A]) ∧
  removeDuplicates ([A] ++ [B]) = [A].
Proof.
  cbv zeta. split; [reflexivity|]. split; [|reflexivity].
  change (removeDuplicates [bare_click "1" "#a" 5000]) with [bare_click "1" "#a" 5000].
  constructor; [|constructor].
  unfold near_before, duplicateThreshold; simpl. lia.
Qed.

(** C3 (amended): for every input sequence, when the loop reaches a record
    [a] after the records [pre], it keeps [a] exactly when no record kept so
    far has the key of [a] (type with selector, else url, else value) and a
    timestamp [t] with [timestamp a - t <= 1000]; the difference is signed,
    so a kept record stamped later than [a] suppresses it as well.  The
    decision is never revised by later records; it is the comparison with
    the reference point of the key, the record kept last for it; a kept
    record becomes the reference point; the first record of a key is always
    kept; the counter goes up exactly for the removed records.  When the
    records before [a] are not stamped later than [a], the removed records
    are exactly those with a kept record of their key in the 1000 ms before
    them. *)
Theorem removeDuplicates_exact (pre post : list RecordedAction) (a : RecordedAction) :
  let kept := removeDuplicates pre in
  let k := generateActionKey a in
  removeDuplicates (pre ++ [a]) =
    (if decide (Exists (near a) kept) then kept else kept ++ [a])
  ∧ removeDuplicates (pre ++ [a]) `prefix_of` removeDuplicates (pre ++ a :: post)
  ∧ (Exists (near a) kept ↔
       ∃ r, reference k kept = Some r ∧ a_timestamp a - a_timestamp r ≤ 1000)
  ∧ reference k (removeDuplicates (pre ++ [a])) =
      (if decide (Exists (near a) kept) then reference k kept else Some a)
  ∧ (Forall (λ b, generateActionKey b ≠ k) pre → removeDuplicates (pre ++ [a]) = kept ++ [a])
  ∧ duplicatesRemoved (dedup_run (pre ++ [a])) =
      (if decide (Exists (near a) kept)
       then S (duplicatesRemoved (dedup_run pre)) else duplicatesRemoved (dedup_run pre))
  ∧ (Forall (λ b, a_timestamp b ≤ a_timestamp a) pre →
       (Exists (near a) kept ↔ Exists (near_before a) kept)).
Proof.
  cbv zeta.
  assert (Hsub : ∀ b, b ∈ removeDuplicates pre → b ∈ pre).
  { intros b Hb. eapply elem_of_sublist; [done|apply removeDuplicates_sublist]. }
  split; [apply removeDuplicates_snoc|].
  split.
  { unfold removeDuplicates. rewrite (cons_middle a pre post), app_assoc.
    rewrite (dedup_run_app (pre ++ [a]) post). apply dedup_fold_prefix. }
  split.
  { split.
    - intros (b & Hb & Hk & Hle)%Exists_exists.
      destruct (reference_latest _ _ Hb) as (r & Hr & Hle').
      exists r. rewrite <- Hk. split; [done|]. unfold duplicateThreshold in Hle. lia.
    - intros (r & Hr & Hle). apply reference_elem in Hr as [Hin Hk].
      apply Exists_exists. exists r. by repeat split. }
  split.
  { rewrite removeDuplicates_snoc. destruct (decide _); [done|].
    unfold reference. rewrite filter_app, filter_cons, filter_nil.
    rewrite decide_True by done. by rewrite last_snoc. }
  split.
  { intros Hfresh. rewrite removeDuplicates_snoc. destruct (decide _) as [He|]; [|done].
    apply Exists_exists in He as (b & Hb & Hk & _).
    rewrite Forall_forall in Hfresh. by destruct (Hfresh b (Hsub b Hb)). }
  split.
  { pose proof (dedup_keeps_spec pre a) as Hspec.
    rewrite dedup_run_snoc. unfold dedup_step.
    destruct (dedup_keeps _ _) eqn:Hk; simpl.
    - destruct (decide _) as [He|]; [|done]. apply Hspec in He. done.
    - destruct (decide _) as [|Hne]; [done|]. destruct Hne. by apply Hspec. }
  intros Hord. rewrite Forall_forall in Hord.
  split; intros (b & Hb & Hk & Hle)%Exists_exists; apply Exists_exists; exists b.
  - split; [done|]. split; [done|]. specialize (Hord b (Hsub b Hb)). lia.
  - split; [done|]. split; [done|]. lia.
Qed.

(** Two clicks on [#a], 500 ms apart and in time order: the second is a
    duplicate under either reading. *)
Lemma removeDuplicates_exact_witness :
  let A := bare_click "1" "#a" 100 in
  let B := bare_click "2" "#a" 600 in
  Forall (λ b, a_timestamp b ≤ a_timestamp B) [A]
  ∧ (Exists (near B) (removeDuplicates [A]) ↔ Exists (near_before B) (removeDuplicates [A])).
Proof.
  cbv zeta.
  assert (H : Forall (λ b, a_timestamp b ≤ a_timestamp (bare_click "2" "#a" 600))
                     [bare_click "1" "#a" 100]).
  { constructor; [simpl; lia|constructor]. }
  split; [exact H|].
  exact (proj2 (proj2 (proj2 (proj2 (proj2 (proj2
           (removeDuplicates_exact [bare_click "1" "#a" 100] []
                                   (bare_click "2" "#a" 600))))))) H).
Defined.

(** ** The worked example of the design document *)


(** C4: on the five actions click(#max-btn, "MAX", 100), input(#amount,
    value 10, isAmountInput, 200), click("Approve", 5100), click("Swap",
    6200), click("Swap", 6250) the optimizer returns the swap flow
    [INPUT_AMOUNT(value 10, t 200); APPROVE(t 5100); CLICK_SWAP(t 6200)],
    numbered 0, 1, 2, with duplicatesRemoved = 1 and swapDetected = true;
    whatever the element descriptor of the input, the session url and the
    network requests are. *)
Theorem worked_example
    (new_URL : string → option URL) (element : ElementInfo)
    (url : string) (requests : list NetworkRequest) :
  let out := optimize new_URL (Example1.recording element url requests) in
  map Example1.shown (od_swapFlow out) =
    [ (0%nat, INPUT_AMOUNT, Some "10", Some 200);
      (1%nat, APPROVE, None, Some 5100);
      (2%nat, CLICK_SWAP, None, Some 6200) ]
  ∧ sum_duplicatesRemoved (od_summary out) = 1%nat
  ∧ sum_swapDetected (od_summary out) = true
  ∧ sum_originalActions (od_summary out) = 5%nat
  ∧ sum_compressionRatio (od_summary out) = "40.0%".
Proof.
  cbv zeta. unfold optimize.
  destruct (detectDexTypeAndComplexity _ _) as [[[dexType swapComplexity] rate] risk].
  cbn [od_swapFlow od_summary sum_duplicatesRemoved sum_swapDetected
       sum_originalActions sum_compressionRatio r_actions Example1.recording].
  assert (Hkept : uniqueActions (dedup_run (Example1.actions element)) =
                  firstn 4 (Example1.actions element)) by (vm_compute; reflexivity).
  assert (Hdup : duplicatesRemoved (dedup_run (Example1.actions element)) = 1%nat)
    by (vm_compute; reflexivity).
  rewrite Hkept, Hdup.
  assert (Hflow : map Example1.shown
                    (extractEnhancedSwapFlow (firstn 4 (Example1.actions element))) =
                  [ (0%nat, INPUT_AMOUNT, Some "10", Some 200);
                    (1%nat, APPROVE, None, Some 5100);
                    (2%nat, CLICK_SWAP, None, Some 6200) ]).
  { vm_compute. reflexivity. }
  split; [exact Hflow|].
  split; [reflexivity|].
  assert (Hlen : length (extractEnhancedSwapFlow (firstn 4 (Example1.actions element))) = 3%nat)
    by (vm_compute; reflexivity).
  rewrite Hlen. repeat split; reflexivity.
Qed.

(** ** Pass 4: selector harvesting *)

(** The [amountInput] role is guarded by [selectorMap.has]: once bound it
    keeps its selector. *)
Lemma selector_step_amountInput (a : RecordedAction) (m : gmap string string) (s : string) :
  m !! "amountInput" = Some s → selector_step m a !! "amountInput" = Some s.
Proof.
  intros Hm. unfold selector_step.
  destruct (a_selector a) as [sel|]; [|done].
  destruct (a_element a) as [el|]; [|done].
  destruct (String.eqb sel ""); [done|]. cbv zeta.
  assert (H1 : bind_token_buttons sel (elem_text_lower el) m !! "amountInput" = Some s).
  { unfold bind_token_buttons. repeat case_match; by rewrite ?lookup_insert_ne. }
  assert (H2 : bind_amountInput a sel (bind_token_buttons sel (elem_text_lower el) m)
                 !! "amountInput" = Some s).
  { unfold bind_amountInput. rewrite H1. by case_match. }
  unfold bind_button. repeat case_match; by rewrite ?lookup_insert_ne.
Qed.

Lemma amountInput_kept (actions : list RecordedAction) (m : gmap string string) (s : string) :
  m !! "amountInput" = Some s →
  fold_left selector_step actions m !! "amountInput" = Some s.
Proof.
  revert m. induction actions as [|a actions IH]; intros m Hm; simpl; [done|].
  by apply IH, selector_step_amountInput.
Qed.

(** C5 at two clicks on buttons labelled "Swap", first on [#swap-top] and
    then on [#swap-bottom]: the [swapButton] role ends bound to the selector
    of the second click, the first binding is overwritten.  (The claim asks
    for [#swap-top].) *)
Theorem swapButton_last_writer :
  let first := Example1.click_on "1" (Some "#swap-top") "Swap" 0 in
  let second := Example1.click_on "2" (Some "#swap-bottom") "Swap" 5000 in
  removeDuplicates [first; second] = [first; second] ∧
  extractEssentialSelectors [first] !! "swapButton" = Some "#swap-top" ∧
  extractEssentialSelectors [first; second] !! "swapButton" = Some "#swap-bottom".
Proof. cbv zeta. repeat split; vm_compute; reflexivity. Qed.

(** ** Pass 2: amount inputs *)


(** C6 at three amount inputs stamped 0, 3000 and 4500 ms: when the third
    arrives, the step made by the second (3000 ms) is pending and lies 1500 ms
    before it, yet [find] returns the step of the first input (0 ms), more
    than 2000 ms back, and a third INPUT_AMOUNT step is appended; the step of
    the second input keeps the value 12.  (The claim asks for two steps, the
    second one updated to 123.) *)
Theorem amount_input_first_match :
  removeDuplicates Example2.actions = Example2.actions ∧
  map Example1.shown (extractEnhancedSwapFlow (take 2 Example2.actions)) =
    [ (0%nat, INPUT_AMOUNT, Some "1", Some 0);
      (1%nat, INPUT_AMOUNT, Some "12", Some 3000) ] ∧
  map Example1.shown (extractEnhancedSwapFlow Example2.actions) =
    [ (0%nat, INPUT_AMOUNT, Some "1", Some 0);
      (1%nat, INPUT_AMOUNT, Some "12", Some 3000);
      (2%nat, INPUT_AMOUNT, Some "123", Some 4500) ].
Proof. repeat split; vm_compute; reflexivity. Qed.

(** Where the first and the pending step coincide the update is in place:
    inputs at 0 and 1500 ms leave one step, with the later value. *)
Example amount_input_updates :
  map Example1.shown
      (extractEnhancedSwapFlow [Example2.typed "1" "1" 0; Example2.typed "2" "12" 1500]) =
    [ (0%nat, INPUT_AMOUNT, Some "12", Some 0) ].
Proof. vm_compute. reflexivity. Qed.

(** ** Pass 6: the summary *)

(** C2 at a recording without actions: the division is [0 / 0], and the
    summary carries the text [NaN%].  (The claim asks for a fixed sentinel
    that is not a NaN result.) *)
Theorem compressionRatio_empty
    (new_URL : string → option URL) (id url : string) (duration : Z)
    (requests : list NetworkRequest) :
  let out := optimize new_URL {| r_id := id; r_url := url; r_duration := duration;
                                 r_actions := []; r_networkRequests := requests |} in
  sum_originalActions (od_summary out) = 0%nat ∧
  sum_optimizedActions (od_summary out) = 0%nat ∧
  sum_compressionRatio (od_summary out) = "NaN%".
Proof.
  cbv zeta. unfold optimize.
  destruct (detectDexTypeAndComplexity _ _) as [[[dexType swapComplexity] rate] risk].
  repeat split; reflexivity.
Qed.

(** With at least one action the ratio is an ordinary percentage. *)
Example compressionRatio_third : compressionRatio 3 1 = "66.7%".
Proof. reflexivity. Qed.

Example compressionRatio_negative : compressionRatio 3 4 = "-33.3%".
Proof. reflexivity. Qed.

(** ** The sort *)

Section StableSortFacts.
Context {A : Type} (key : A → Z).

Lemma sort_insert_perm x (l : list A) : sort_insert key x l ≡ₚ x :: l.
Proof.
  induction l as [|y l IH]; simpl; [done|].
  destruct (key x <=? key y); [done|]. rewrite IH. apply Permutation_swap.
Qed.

Lemma sort_by_perm (l : list A) : sort_by key l ≡ₚ l.
Proof.
  induction l as [|x l IH]; simpl; [done|]. by rewrite sort_insert_perm, IH.
Qed.

Lemma ordered_cons x (l : list A) :
  ordered key (x :: l) ↔ Forall (λ y, key x ≤ key y) l ∧ ordered key l.
Proof.
  split.
  - intros H. split.
    + apply Forall_lookup. intros i y Hy. apply (H 0%nat (S i) x y); [lia|done|done].
    + intros i j a b Hij Ha Hb. apply (H (S i) (S j) a b); [lia|done|done].
  - intros [Hx Hl] i j a b Hij Ha Hb.
    destruct j as [|j]; [lia|]. simpl in Hb.
    destruct i as [|i]; simpl in Ha.
    + simplify_eq. rewrite Forall_lookup in Hx. by apply (Hx j).
    + apply (Hl i j); [lia|done|done].
Qed.

Lemma sort_insert_ordered x (l : list A) : ordered key l → ordered key (sort_insert key x l).
Proof.
  induction l as [|y l IH]; simpl; intros Hl.
  - apply ordered_cons. split; [constructor|]. intros i j ? ? _ Hi. by destruct i.
  - destruct (key x <=? key y) eqn:Hxy.
    + apply Z.leb_le in Hxy. apply ordered_cons. split; [|done].
      apply ordered_cons in Hl as [Hy _]. constructor; [done|].
      eapply Forall_impl; [exact Hy|]. simpl. intros; lia.
    + apply Z.leb_gt in Hxy. apply ordered_cons in Hl as [Hy Hl].
      apply ordered_cons. split; [|by apply IH].
      rewrite sort_insert_perm. constructor; [lia|done].
Qed.

Lemma sort_by_ordered (l : list A) : ordered key (sort_by key l).
Proof.
  induction l as [|x l IH]; simpl.
  - intros i j ? ? _ Hi. by destruct i.
  - by apply sort_insert_ordered.
Qed.
End StableSortFacts.

(** ** The session stop *)

Section StopRecording.
Variable uuidv4 : nat → string.

Lemma push_page_actions_timestamps (pageActions : list PageAction) (eng : Engine) :
  let eng' := fold_left (push_page_action uuidv4) pageActions eng in
  startTime eng' = startTime eng ∧
  map a_timestamp (actions eng') =
    map a_timestamp (actions eng) ++ map (λ p, p_timestamp p - startTime eng) pageActions.
Proof.
  revert eng. induction pageActions as [|p ps IH]; intros eng; simpl.
  - by rewrite app_nil_r.
  - destruct (IH (push_page_action uuidv4 eng p)) as [Hs Ht].
    rewrite Hs, Ht. simpl. split; [done|].
    by rewrite map_app, <- app_assoc.
Qed.

(** What [stopRecording] returns: the actions pushed during the session,
    followed by the drained ones in time order, their timestamps taken
    relative to the session start. *)
Lemma stopRecording_timestamps frames now page_url (eng : Engine) :
  map a_timestamp (r_actions (stopRecording uuidv4 frames now page_url eng).2) =
    map a_timestamp (actions eng) ++
    map (λ p, p_timestamp p - startTime eng) (sort_by p_timestamp (drain_frames frames)).
Proof.
  unfold stopRecording. cbv zeta. simpl.
  match goal with
  | |- context [fold_left _ ?ps ?e] =>
      destruct (push_page_actions_timestamps ps e) as [_ Ht]
  end.
  exact Ht.
Qed.
End StopRecording.


(** C1 at a session started at 1000 (clock, ms) with one click stamped 1100
    in the main frame's buffer and one main-frame navigation handled at
    6000: the recording returned by [stopRecording] lists the navigate
    action (5000 ms) before the click (100 ms).  Both timestamps are relative
    to the session start, but the drained click is placed after the
    navigate action that was already in the engine's buffer.  (The claim
    asks for non-decreasing timestamps.) *)
Theorem stopRecording_navigate_first (uuidv4 : nat → string) :
  let rec := (stopRecording uuidv4 [Some [Example3.link_click]] 7000
                "https://dex.example/pool" (Example3.session uuidv4)).2 in
  map (λ a, (a_type a, a_timestamp a)) (r_actions rec) = [(navigate, 5000); (click, 100)]
  ∧ ∃ x y, r_actions rec !! 0%nat = Some x ∧ r_actions rec !! 1%nat = Some y
           ∧ a_timestamp y < a_timestamp x.
Proof.
  cbv zeta. split; [reflexivity|].
  eexists _, _. split; [reflexivity|]. split; [reflexivity|]. simpl. lia.
Qed.

(** ** Pass 3: API endpoints *)

Section StringFacts.

Lemma before_first_split (c : ascii) (s : string) :
  ∃ rest, s = JS.before_first c s +:+ rest ∧ (rest = "" ∨ ∃ r, rest = String c r).
Proof.
  induction s as [|a s IH]; simpl.
  - exists "". by split; [|left].
  - destruct (Ascii.eqb a c) eqn:Hac.
    + apply Ascii.eqb_eq in Hac as ->. exists (String c s). split; [done|]. right. by exists s.
    + destruct IH as (rest & Hs & Hrest). exists rest. split; [|done].
      change (String a s = String a (JS.before_first c s +:+ rest)). by f_equal.
Qed.

Lemma before_first_free (c : ascii) (s : string) :
  JS.includes (JS.before_first c s) (String c "") = false.
Proof.
  induction s as [|a s IH]; simpl; [done|].
  destruct (Ascii.eqb a c) eqn:Hac; simpl; [done|].
  rewrite Ascii.eqb_sym, Hac. simpl. exact IH.
Qed.

Lemma append_slash_inv (r : string) (a : ascii) (s : string) :
  String a s = r +:+ "/" → (s = "" ∧ a = "/"%char ∧ r = "") ∨ ∃ r', r = String a r' ∧ s = r' +:+ "/".
Proof.
  destruct r as [|b r]; intros H.
  - change ("" +:+ "/") with "/" in H. simplify_eq. by left.
  - change (String b r +:+ "/") with (String b (r +:+ "/")) in H. simplify_eq.
    right. by exists r.
Qed.

Lemma strip_trailing_slash_spec (s : string) :
  s = JS.strip_trailing_slash s +:+ "/"
  ∨ (JS.strip_trailing_slash s = s ∧ ∀ r, s ≠ r +:+ "/").
Proof.
  induction s as [|a s IH].
  - right. split; [done|]. intros [|? ?]; simpl; discriminate.
  - destruct s as [|b s].
    + simpl. destruct (Ascii.eqb a "/") eqn:Ha.
      * apply Ascii.eqb_eq in Ha as ->. by left.
      * right. split; [done|]. intros r Hr.
        apply append_slash_inv in Hr as [(_ & -> & _)|(r' & _ & Hr')].
        -- by rewrite Ascii.eqb_refl in Ha.
        -- destruct r'; discriminate.
    + change (JS.strip_trailing_slash (String a (String b s)))
        with (String a (JS.strip_trailing_slash (String b s))).
      destruct IH as [IH|[IH Hno]].
      * left.
        change (String a (String b s) =
                String a (JS.strip_trailing_slash (String b s) +:+ "/")).
        by f_equal.
      * right. rewrite IH. split; [done|]. intros r Hr.
        apply append_slash_inv in Hr as [(? & _)|(r' & _ & Hr')]; [done|].
        by apply (Hno r').
Qed.
End StringFacts.

Section ApiPatterns.
Variable new_URL : string → option URL.

(** C10: [normalizeUrl] is a total function of the input string, whatever
    the [URL] constructor does: when the constructor throws, the result is
    the input up to its first [?] with one final [/] removed, if there is
    one; when it returns, the result is origin followed by pathname with
    one final [/] removed, if there is one. *)
Theorem normalizeUrl_total (url : string) :
  ∃ base,
    match new_URL url with
    | Some urlObj => base = origin urlObj +:+ pathname urlObj
    | None =>
        ∃ rest, url = base +:+ rest
                ∧ JS.includes base "?" = false
                ∧ (rest = "" ∨ JS.startsWith "?" rest = true)
    end
    ∧ ((base = normalizeUrl new_URL url +:+ "/")
       ∨ (normalizeUrl new_URL url = base ∧ ∀ s, base ≠ s +:+ "/")).
Proof.
  unfold normalizeUrl. destruct (new_URL url) as [urlObj|].
  - exists (origin urlObj +:+ pathname urlObj). split; [done|].
    apply strip_trailing_slash_spec.
  - exists (JS.before_first "?" url). split; [|apply strip_trailing_slash_spec].
    destruct (before_first_split "?" url) as (rest & Hsplit & Hrest).
    exists rest. split; [done|]. split; [apply before_first_free|].
    destruct Hrest as [->|[r ->]]; [by left|by right].
Qed.

Lemma api_has_spec key (apiMap : list (string * ApiEndpoint)) :
  api_has key apiMap = true ↔ key ∈ apiMap.*1.
Proof.
  unfold api_has. rewrite existsb_exists, list_elem_of_fmap. split.
  - intros ([k e] & Hin & Heq). apply String.eqb_eq in Heq. simpl in Heq. subst.
    exists (key, e). split; [done|]. by apply list_elem_of_In.
  - intros ([k e] & -> & Hin). exists (k, e). split; [by apply list_elem_of_In|].
    apply String.eqb_refl.
Qed.

Lemma api_step_inv seen apiMap request :
  api_inv new_URL seen apiMap → api_inv new_URL (seen ++ [request]) (api_step new_URL apiMap request).
Proof.
  intros [Hnd Hall]. unfold api_step. cbv zeta.
  assert (Hold : Forall (λ kv, kv.1 = endpoint_key kv.2 ∧
                               ∃ req, req ∈ seen ++ [request] ∧ from_request new_URL req kv.2) apiMap).
  { eapply Forall_impl; [exact Hall|]. intros kv [Hk (req & Hin & Hfrom)].
    split; [done|]. exists req. split; [|done]. apply elem_of_app. by left. }
  destruct (api_has _ _) eqn:Hhas; [by split|].
  split.
  - rewrite fmap_app. apply NoDup_app. split; [done|]. split.
    + simpl. intros k Hk Hk'. apply list_elem_of_singleton in Hk'. subst k.
      apply api_has_spec in Hk. congruence.
    + simpl. apply NoDup_singleton.
  - apply Forall_app. split; [done|]. constructor; [|constructor].
    split; [done|]. exists request. split; [|done].
    apply elem_of_app. right. by apply list_elem_of_singleton.
Qed.

Lemma api_fold_inv requests seen apiMap :
  api_inv new_URL seen apiMap →
  api_inv new_URL (seen ++ requests) (fold_left (api_step new_URL) requests apiMap).
Proof.
  revert seen apiMap. induction requests as [|r requests IH]; intros seen apiMap Hinv; simpl.
  - by rewrite app_nil_r.
  - rewrite (cons_middle r seen requests), app_assoc.
    apply IH. by apply api_step_inv.
Qed.

Lemma apiEndpoints_NoDup (requests : list NetworkRequest) :
  let endpoints := extractEnhancedApiPatterns new_URL requests in
  NoDup (map (λ e, (ep_method e, ep_url e)) endpoints)
  ∧ ∀ e, e ∈ endpoints → ∃ req, req ∈ requests ∧ from_request new_URL req e.
Proof.
  cbv zeta. unfold extractEnhancedApiPatterns.
  destruct (api_fold_inv requests [] []) as [Hnd Hall].
  { split; [constructor|constructor]. }
  rewrite app_nil_l in Hall.
  set (apiMap := fold_left (api_step new_URL) requests []) in *.
  assert (Hkeys : apiMap.*1 = map endpoint_key apiMap.*2).
  { clearbody apiMap. induction apiMap as [|[k e] apiMap IH]; [done|].
    apply Forall_cons in Hall as [[Hk _] Hall]. apply NoDup_cons in Hnd as [_ Hnd].
    simpl in *. rewrite Hk. f_equal. by apply IH. }
  split.
  - rewrite Hkeys in Hnd.
    apply (NoDup_fmap_1 (λ p : string * string, p.1 +:+ "_" +:+ p.2)).
    rewrite <- list_fmap_compose. exact Hnd.
  - intros e ([k e'] & -> & Hin)%list_elem_of_fmap.
    rewrite Forall_forall in Hall. by destruct (Hall _ Hin) as [_ ?].
Qed.
End ApiPatterns.

(** C7: the endpoint table holds at most one entry for a pair of method and
    normalized url, each entry carrying the method of a request and the
    [normalizeUrl] of its url (origin and path, no query); and the requests
    GET https://x/api/quote?x=1 and GET https://x/api/quote?y=2 give the
    single endpoint GET https://x/api/quote of purpose quote. *)
Theorem apiEndpoints_unique :
  (∀ (new_URL : string → option URL) (requests : list NetworkRequest),
     let endpoints := extractEnhancedApiPatterns new_URL requests in
     NoDup (map (λ e, (ep_method e, ep_url e)) endpoints)
     ∧ ∀ e, e ∈ endpoints →
         ∃ req, req ∈ requests ∧ ep_method e = n_method req
                ∧ ep_url e = normalizeUrl new_URL (n_url req))
  ∧ (∀ id1 id2 t1 t2 h1 h2 resp1 resp2,
       map (λ e, (ep_method e, ep_url e, ep_purpose e, ep_params e))
           (extractEnhancedApiPatterns HttpURL.parse
              [ get_request id1 t1 h1 resp1 "https://x/api/quote?x=1";
                get_request id2 t2 h2 resp2 "https://x/api/quote?y=2" ]) =
       [ ("GET", "https://x/api/quote", P_quote, [("x", "1")]) ]).
Proof.
  split.
  - intros new_URL requests. cbv zeta.
    destruct (apiEndpoints_NoDup new_URL requests) as [Hnd Hfrom].
    split; [exact Hnd|]. intros e He.
    destruct (Hfrom e He) as (req & Hin & Hm & Hu & _). by exists req.
  - intros. vm_compute. reflexivity.
Qed.

Lemma apiEndpoints_unique_witness :
  let requests := [ get_request "1" 10 None None "https://x/api/quote?x=1";
                    get_request "2" 20 None None "https://x/api/quote?y=2" ] in
  NoDup (map (λ e, (ep_method e, ep_url e))
             (extractEnhancedApiPatterns HttpURL.parse requests)).
Proof.
  cbv zeta.
  exact (proj1 (proj1 apiEndpoints_unique HttpURL.parse
                  [ get_request "1" 10 None None "https://x/api/quote?x=1";
                    get_request "2" 20 None None "https://x/api/quote?y=2" ])).
Defined.

(** C8 at https://x/api/quote//: the first application removes one of the
    two final slashes, the second application removes the other, so the
    result of applying [normalizeUrl] twice differs from applying it once.
    The same happens in the [catch] branch, on a string that is not a URL.
    (The claim asks for equal results.) *)
Theorem normalizeUrl_twice :
  let once := normalizeUrl HttpURL.parse "https://x/api/quote//" in
  let twice := normalizeUrl HttpURL.parse once in
  once = "https://x/api/quote/" ∧ twice = "https://x/api/quote"
  ∧ normalizeUrl HttpURL.parse "/api/quote//?x=1" = "/api/quote/"
  ∧ normalizeUrl HttpURL.parse "/api/quote/" = "/api/quote".
Proof. cbv zeta. repeat split; vm_compute; reflexivity. Qed.

(** ** Header sanitizing *)

Section SanitizeHeaders.
Implicit Types (h out : list (string * string)) (kv : string * string).

Lemma is_important_spec key :
  is_important key = true ↔ In (JS.toLowerCase key) importantHeaders.
Proof.
  unfold is_important. rewrite existsb_exists. split.
  - intros (x & Hin & Heq). apply String.eqb_eq in Heq. by subst.
  - intros Hin. exists (JS.toLowerCase key). split; [done|]. apply String.eqb_refl.
Qed.

Lemma is_sensitive_spec key :
  is_sensitive key = true ↔
  JS.toLowerCase key = "authorization" ∨ JS.toLowerCase key = "x-api-key".
Proof.
  unfold is_sensitive. rewrite orb_true_iff, !String.eqb_eq. done.
Qed.

Lemma obj_set_Forall (P : string * string → Prop) key value out :
  P (key, value) → Forall P out → Forall P (obj_set key value out).
Proof.
  intros Hnew. induction out as [|[k v] out IH]; simpl; intros Hall.
  - by constructor.
  - apply Forall_cons in Hall as [Hkv Hall].
    destruct (String.eqb k key) eqn:Hk.
    + apply String.eqb_eq in Hk as ->. by constructor.
    + constructor; [done|by apply IH].
Qed.

Lemma sanitize_step_Forall out kv :
  Forall sanitized_entry out → Forall sanitized_entry (sanitize_step out kv).
Proof.
  destruct kv as [key value]. unfold sanitize_step. intros Hall.
  destruct (is_important key) eqn:Himp; [|done].
  apply is_important_spec in Himp.
  destruct (is_sensitive key) eqn:Hsens; apply obj_set_Forall; try done.
  split; simpl; [done|]. intros Hs%is_sensitive_spec. congruence.
Qed.

Lemma sanitize_fold_Forall h out :
  Forall sanitized_entry out → Forall sanitized_entry (fold_left sanitize_step h out).
Proof.
  revert out. induction h as [|kv h IH]; intros out Hall; simpl; [done|].
  by apply IH, sanitize_step_Forall.
Qed.

Lemma sanitize_step_without_secrets out kv :
  sanitize_step out kv =
  sanitize_step out (kv.1, if is_sensitive kv.1 then "" else kv.2).
Proof.
  destruct kv as [key value]. unfold sanitize_step. simpl.
  destruct (is_important key); [|done]. by destruct (is_sensitive key).
Qed.

Lemma sanitize_fold_without_secrets h out :
  fold_left sanitize_step h out = fold_left sanitize_step (without_secrets h) out.
Proof.
  revert out. induction h as [|kv h IH]; intros out; [done|].
  change (fold_left sanitize_step h (sanitize_step out kv) =
          fold_left sanitize_step (without_secrets h)
            (sanitize_step out (kv.1, if is_sensitive kv.1 then "" else kv.2))).
  by rewrite <- sanitize_step_without_secrets, IH.
Qed.
End SanitizeHeaders.

(** C9: every entry of the sanitized headers has a key whose lower-case form
    is content-type, authorization, x-api-key or referer; every entry whose
    key lower-cases to authorization or x-api-key has the value
    [***MASKED***]; the result is a function of the headers with the values
    of those two kinds of header blanked, so that two header maps which
    differ only in such values are sanitized to the same result. *)
Theorem sanitizeHeaders_masks :
  (∀ headers kv, In kv (sanitizeHeaders headers) → sanitized_entry kv)
  ∧ (∀ h, sanitizeHeaders (Some h) = sanitizeHeaders (Some (without_secrets h)))
  ∧ (∀ h1 h2, without_secrets h1 = without_secrets h2 →
               sanitizeHeaders (Some h1) = sanitizeHeaders (Some h2))
  ∧ sanitizeHeaders None = [].
Proof.
  split; [|split; [|split]].
  - intros [h|] kv Hin; simpl in Hin; [|done].
    assert (Hall : Forall sanitized_entry (fold_left sanitize_step h [])).
    { apply sanitize_fold_Forall. constructor. }
    rewrite Forall_forall in Hall. apply Hall. by apply list_elem_of_In.
  - intros h. simpl. apply sanitize_fold_without_secrets.
  - intros h1 h2 Heq. simpl.
    by rewrite (sanitize_fold_without_secrets h1), (sanitize_fold_without_secrets h2), Heq.
  - reflexivity.
Qed.

Lemma sanitizeHeaders_masks_witness :
  let h1 := [ ("Authorization", "Bearer one"); ("referer", "https://x/") ] in
  let h2 := [ ("Authorization", "Bearer two"); ("referer", "https://x/") ] in
  without_secrets h1 = without_secrets h2
  ∧ sanitizeHeaders (Some h1) = sanitizeHeaders (Some h2).
Proof.
  cbv zeta.
  assert (H : without_secrets [ ("Authorization", "Bearer one"); ("referer", "https://x/") ] =
              without_secrets [ ("Authorization", "Bearer two"); ("referer", "https://x/") ])
    by reflexivity.
  split; [exact H|].
  exact (proj1 (proj2 (proj2 sanitizeHeaders_masks)) _ _ H).
Defined.

Example sanitizeHeaders_sample :
  sanitizeHeaders (Some [ ("Authorization", "Bearer s3cr3t"); ("Accept", "*/*");
                          ("content-type", "application/json"); ("X-API-Key", "k-1") ]) =
  [ ("Authorization", "***MASKED***"); ("content-type", "application/json");
    ("X-API-Key", "***MASKED***") ].
Proof. reflexivity. Qed.

(** * Further properties *)

(** ** Pass 1 *)

Section DedupMore.
Implicit Types (a b : RecordedAction) (l : list RecordedAction).

Lemma removeDuplicates_idem_aux l : removeDuplicates (removeDuplicates l) = removeDuplicates l.
Proof.
  induction l as [|a l IH] using rev_ind; [done|].
  rewrite (removeDuplicates_snoc l a). destruct (decide _) as [|Hno]; [done|].
  rewrite removeDuplicates_snoc, IH. by rewrite decide_False.
Qed.

Lemma removeDuplicates_head a l : head (removeDuplicates (a :: l)) = Some a.
Proof.
  assert (H : removeDuplicates [a] `prefix_of` removeDuplicates ([a] ++ l)).
  { unfold removeDuplicates. rewrite dedup_run_app. apply dedup_fold_prefix. }
  assert (H1 : removeDuplicates [a] = [a]).
  { pose proof (removeDuplicates_snoc [] a) as Hs.
    change (removeDuplicates []) with (@nil RecordedAction) in Hs.
    rewrite decide_False in Hs by (by intros ?%Exists_nil). exact Hs. }
  destruct H as [k Hk]. rewrite H1 in Hk.
  change ([a] ++ l) with (a :: l) in Hk. by rewrite Hk.
Qed.

Lemma removeDuplicates_gap_aux l i j b c :
  (i < j)%nat → removeDuplicates l !! i = Some b → removeDuplicates l !! j = Some c →
  generateActionKey b = generateActionKey c →
  duplicateThreshold < a_timestamp c - a_timestamp b.
Proof.
  revert i j b c. induction l as [|a l IH] using rev_ind; intros i j b c Hij Hb Hc Hk.
  - unfold removeDuplicates in Hb. simpl in Hb. by rewrite lookup_nil in Hb.
  - rewrite removeDuplicates_snoc in Hb, Hc. destruct (decide _) as [|Hno]; [exact (IH i j b c Hij Hb Hc Hk)|].
    destruct (decide (j < length (removeDuplicates l))%nat) as [Hj|Hj].
    + rewrite lookup_app_l in Hb, Hc by lia. exact (IH i j b c Hij Hb Hc Hk).
    + rewrite lookup_app_l in Hb by (apply lookup_lt_Some in Hc; rewrite length_app in Hc; simpl in Hc; lia).
      rewrite lookup_app_r in Hc by lia.
      apply list_lookup_singleton_Some in Hc as [_ <-].
      destruct (decide (duplicateThreshold < a_timestamp a - a_timestamp b)) as [|Hle]; [done|].
      destruct Hno. apply Exists_exists. exists b. split.
      * by eapply list_elem_of_lookup_2.
      * split; [done|lia].
Qed.
End DedupMore.

(** X1: deduplication is idempotent: a second run over the kept records
    removes nothing. *)
Theorem removeDuplicates_idempotent (actions : list RecordedAction) :
  removeDuplicates (removeDuplicates actions) = removeDuplicates actions
  ∧ duplicatesRemoved (dedup_run (removeDuplicates actions)) = 0%nat.
Proof.
  split; [apply removeDuplicates_idem_aux|].
  pose proof (duplicatesRemoved_count (removeDuplicates actions)) as H.
  rewrite removeDuplicates_idem_aux in H. lia.
Qed.

(** X2: the kept records are a subsequence of the input, in the input's
    order, starting with the input's first record; the counter
    [duplicatesRemoved] is the number of records left out. *)
Theorem removeDuplicates_subsequence (actions : list RecordedAction) :
  removeDuplicates actions `sublist_of` actions
  ∧ head (removeDuplicates actions) = head actions
  ∧ (duplicatesRemoved (dedup_run actions) + length (removeDuplicates actions))%nat
    = length actions.
Proof.
  split; [apply removeDuplicates_sublist|]. split; [|apply duplicatesRemoved_count].
  destruct actions as [|a l]; [done|]. apply removeDuplicates_head.
Qed.

(** X3: two kept records with the same key are more than 1000 ms apart, the
    later kept one carrying the larger timestamp. *)
Theorem removeDuplicates_gap (actions : list RecordedAction) (i j : nat) (b c : RecordedAction) :
  (i < j)%nat →
  removeDuplicates actions !! i = Some b →
  removeDuplicates actions !! j = Some c →
  generateActionKey b = generateActionKey c →
  1000 < a_timestamp c - a_timestamp b.
Proof. apply removeDuplicates_gap_aux. Qed.

Lemma removeDuplicates_gap_witness :
  let actions := [bare_click "1" "#a" 0; bare_click "2" "#a" 700; bare_click "3" "#a" 1500] in
  removeDuplicates actions = [bare_click "1" "#a" 0; bare_click "3" "#a" 1500]
  ∧ 1000 < a_timestamp (bare_click "3" "#a" 1500) - a_timestamp (bare_click "1" "#a" 0).
Proof.
  cbv zeta. split; [reflexivity|].
  exact (removeDuplicates_gap
           [bare_click "1" "#a" 0; bare_click "2" "#a" 700; bare_click "3" "#a" 1500]
           0 1 _ _ ltac:(lia) eq_refl eq_refl eq_refl).
Defined.

(** ** Pass 2 *)

Section FlowFinish.
Implicit Types (flow : list SwapAction).

Lemma flow_finish_lookup flow i :
  flow_finish flow !! i = set_id i <$> sort_by ts_or_0 flow !! i.
Proof. unfold flow_finish. apply list_lookup_imap. Qed.

Lemma flow_finish_length flow : length (flow_finish flow) = length flow.
Proof.
  unfold flow_finish. rewrite length_imap.
  apply Permutation_length, sort_by_perm.
Qed.

Lemma flow_finish_ids flow : map s_id (flow_finish flow) = seq 0 (length (flow_finish flow)).
Proof.
  apply list_eq. intros i. rewrite list_lookup_fmap, flow_finish_lookup.
  destruct (sort_by ts_or_0 flow !! i) as [a|] eqn:Ha; simpl.
  - symmetry. apply lookup_seq. split; [done|].
    rewrite flow_finish_length, <- (Permutation_length (sort_by_perm ts_or_0 flow)).
    by eapply lookup_lt_Some.
  - symmetry. apply lookup_ge_None. rewrite length_seq, flow_finish_length.
    rewrite <- (Permutation_length (sort_by_perm ts_or_0 flow)).
    by apply lookup_ge_None.
Qed.

Lemma flow_finish_ordered flow : ordered ts_or_0 (flow_finish flow).
Proof.
  intros i j x y Hij Hx Hy. rewrite flow_finish_lookup in Hx, Hy.
  destruct (sort_by ts_or_0 flow !! i) as [x'|] eqn:Hx'; [|done].
  destruct (sort_by ts_or_0 flow !! j) as [y'|] eqn:Hy'; [|done].
  simpl in Hx, Hy. simplify_eq.
  change (ts_or_0 (set_id i x')) with (ts_or_0 x').
  change (ts_or_0 (set_id j y')) with (ts_or_0 y').
  by apply (sort_by_ordered ts_or_0 flow i j).
Qed.
End FlowFinish.

(** X4: whatever the order of the input, the steps of the swap flow are
    numbered 0, 1, ..., k-1 and their timestamps do not decrease along the
    flow. *)
Theorem swapFlow_ids_and_order (actions : list RecordedAction) :
  let flow := extractEnhancedSwapFlow actions in
  map s_id flow = seq 0 (length flow)
  ∧ ∀ i j x y, (i < j)%nat → flow !! i = Some x → flow !! j = Some y →
               ts_or_0 x ≤ ts_or_0 y.
Proof.
  cbv zeta. unfold extractEnhancedSwapFlow.
  split; [apply flow_finish_ids|apply flow_finish_ordered].
Qed.

Section FlowLoop.
Implicit Types (st : FlowState) (a action : RecordedAction) (actions rest : list RecordedAction).

Lemma find_first_Some {A} (p : A → bool) (l : list A) j x :
  find_first p l = Some (j, x) → l !! j = Some x ∧ p x = true.
Proof.
  revert j. induction l as [|y l IH]; intros j; simpl; [done|].
  destruct (p y) eqn:Hy.
  - intros [= <- <-]. by split.
  - destruct (find_first p l) as [[i z]|]; [|done].
    intros [= <- <-]. by apply IH.
Qed.

(** The three kinds of branch, on the length of the flow. *)
Lemma token_branch_length actions index action text st :
  (length (swapFlow (token_branch actions index action text st))
   ≤ length (swapFlow st) + (if bool_decide (a_type action = click) then 1 else 0))%nat.
Proof.
  unfold token_branch, isEnhancedTokenSelection.
  destruct (bool_decide (a_type action = click)); simpl; [|lia].
  repeat case_match; simpl; rewrite ?length_app; simpl; lia.
Qed.

Lemma amount_branch_length action st :
  (length (swapFlow (amount_branch action st))
   ≤ length (swapFlow st) + (if bool_decide (a_type action = input) then 1 else 0))%nat.
Proof.
  unfold amount_branch, is_amount_input.
  destruct (bool_decide (a_type action = input)); simpl; [|lia].
  repeat case_match; simpl; rewrite ?length_app, ?length_insert; simpl; lia.
Qed.

Lemma button_branch_length recognise kind action buttonText st :
  (length (swapFlow (button_branch recognise kind action buttonText st))
   ≤ length (swapFlow st) + (if bool_decide (a_type action = click) then 1 else 0))%nat.
Proof.
  unfold button_branch.
  destruct (bool_decide (a_type action = click)); simpl; [|lia].
  case_match; simpl; rewrite ?length_app; simpl; lia.
Qed.

Lemma flow_step_length actions index action st :
  (length (swapFlow (flow_step actions index action st))
   ≤ length (swapFlow st) + step_budget action)%nat.
Proof.
  unfold flow_step, step_budget. destruct (a_element action) as [element|]; [|lia].
  cbv zeta.
  set (text := elem_text_lower element). set (buttonText := JS.or_empty (e_text element)).
  set (st1 := token_branch actions index action text st).
  set (st2 := amount_branch action st1).
  set (st3 := button_branch isEnhancedSwapButton CLICK_SWAP action buttonText st2).
  set (st4 := button_branch isEnhancedApproveButton APPROVE action buttonText st3).
  pose proof (token_branch_length actions index action text st) as H1.
  pose proof (amount_branch_length action st1) as H2.
  pose proof (button_branch_length isEnhancedSwapButton CLICK_SWAP action buttonText st2) as H3.
  pose proof (button_branch_length isEnhancedApproveButton APPROVE action buttonText st3) as H4.
  pose proof (button_branch_length isEnhancedConfirmButton CONFIRM action buttonText st4) as H5.
  fold st1 in H1. fold st2 in H2. fold st3 in H3. fold st4 in H4.
  destruct (a_type action); simpl in *; lia.
Qed.

Lemma flow_loop_length actions index rest st :
  (length (swapFlow (flow_loop actions index rest st))
   ≤ length (swapFlow st) + sum_list (map step_budget rest))%nat.
Proof.
  revert index st. induction rest as [|a rest IH]; intros index st; simpl; [lia|].
  pose proof (IH (S index) (flow_step actions index a st)).
  pose proof (flow_step_length actions index a st). lia.
Qed.
End FlowLoop.

Lemma swapFlow_length_budget (actions : list RecordedAction) :
  (length (extractEnhancedSwapFlow actions) ≤ sum_list (map step_budget actions))%nat
  ∧ (length (extractEnhancedSwapFlow actions) ≤ 4 * length actions)%nat.
Proof.
  assert (H : (length (extractEnhancedSwapFlow actions) ≤ sum_list (map step_budget actions))%nat).
  { unfold extractEnhancedSwapFlow. rewrite flow_finish_length.
    pose proof (flow_loop_length actions 0 actions {| swapFlow := []; flowIndex := 0 |}) as H.
    simpl in H. exact H. }
  split; [exact H|].
  etrans; [exact H|]. clear H. induction actions as [|a l IH]; simpl; [lia|].
  assert (step_budget a ≤ 4)%nat by (unfold step_budget; repeat case_match; lia). lia.
Qed.

(** X5: the swap flow has at most four steps for each click and one for each
    input that carries an element descriptor, and none for anything else:
    navigate, wallet, wait and submit actions, and actions without element
    descriptor, never produce a step. *)
Theorem swapFlow_budget (actions : list RecordedAction) :
  (length (extractEnhancedSwapFlow actions) ≤ sum_list (map step_budget actions))%nat
  ∧ (length (extractEnhancedSwapFlow actions) ≤ 4 * length actions)%nat
  ∧ (Forall (λ a, a_element a = None ∨ (a_type a ≠ click ∧ a_type a ≠ input)) actions →
     extractEnhancedSwapFlow actions = []).
Proof.
  destruct (swapFlow_length_budget actions) as [H H4].
  split; [exact H|]. split; [exact H4|].
  intros Hall. apply length_zero_iff_nil.
  assert (sum_list (map step_budget actions) = 0%nat) as Hz; [|lia].
  clear H H4. induction Hall as [|a l Ha _ IH]; simpl; [done|]. rewrite IH.
  unfold step_budget. destruct Ha as [->|[Hc Hi]]; [done|].
  destruct (a_element a); [|done]. by destruct (a_type a).
Qed.

(** A click whose label reads as a token, a swap, an approve and a confirm
    button uses the whole budget. *)
Example swapFlow_budget_reached :
  map s_action (extractEnhancedSwapFlow
                  [Example1.click_on "1" (Some "#go") "Approve token ETH and execute" 10]) =
  [SELECT_TO; CLICK_SWAP; APPROVE; CONFIRM].
Proof. vm_compute. reflexivity. Qed.

Lemma swapFlow_budget_witness :
  let actions := [ bare_click "1" "#a" 0;
                   {| a_id := "2"; a_type := navigate; a_timestamp := 5;
                      a_selector := None; a_xpath := None; a_value := None;
                      a_url := Some "https://x/"; a_element := Some (Example1.button "Swap");
                      a_walletMethod := None; a_isSwapAction := false;
                      a_isAmountInput := false |} ] in
  Forall (λ a, a_element a = None ∨ (a_type a ≠ click ∧ a_type a ≠ input)) actions
  ∧ extractEnhancedSwapFlow actions = [].
Proof.
  cbv zeta.
  match goal with |- ?P ∧ _ => assert (H : P) end.
  { constructor; [by left|]. constructor; [|constructor]. right. split; discriminate. }
  split; [exact H|].
  exact (proj2 (proj2 (swapFlow_budget _)) H).
Defined.

Section FlowProvenance.
Implicit Types (st : FlowState) (a action : RecordedAction) (actions rest : list RecordedAction).

Lemma flow_push_from actions st mk :
  Forall (step_from actions) (swapFlow st) →
  step_from actions (mk (flowIndex st)) →
  Forall (step_from actions) (swapFlow (flow_push st mk)).
Proof.
  intros Hall Hnew. unfold flow_push; simpl. apply Forall_app. split; [done|].
  by constructor.
Qed.

Lemma direction_cue_kind (nearby : list RecordedAction) d :
  direction_cue nearby = Some d → d = SELECT_FROM ∨ d = SELECT_TO.
Proof.
  induction nearby as [|a nearby IH]; simpl; [done|].
  repeat case_match; try done; intros [= <-]; auto.
Qed.

Lemma determineTokenDirection_kind (flow : list SwapAction) actions index :
  determineTokenDirection flow actions index = SELECT_FROM
  ∨ determineTokenDirection flow actions index = SELECT_TO.
Proof.
  unfold determineTokenDirection. cbv zeta.
  destruct (direction_cue _) as [d|] eqn:Hd; [by apply direction_cue_kind in Hd|].
  case_match; auto.
Qed.

Lemma token_branch_from actions index action text st :
  action ∈ actions → is_Some (a_element action) →
  Forall (step_from actions) (swapFlow st) →
  Forall (step_from actions) (swapFlow (token_branch actions index action text st)).
Proof.
  intros Hin Hel Hall. unfold token_branch, isEnhancedTokenSelection.
  destruct (bool_decide (a_type action = click)) eqn:Hc; simpl; [|done].
  apply bool_decide_eq_true in Hc.
  destruct (_ || _); [|done]. destruct (extractEnhancedTokenInfo action); [|done].
  apply flow_push_from; [done|]. exists action. simpl. repeat split; try done.
  left. split; [done|].
  destruct (determineTokenDirection_kind (swapFlow st) actions index) as [-> | ->]; discriminate.
Qed.

Lemma amount_branch_from actions action st :
  action ∈ actions → is_Some (a_element action) →
  Forall (step_from actions) (swapFlow st) →
  Forall (step_from actions) (swapFlow (amount_branch action st)).
Proof.
  intros Hin Hel Hall. unfold amount_branch, is_amount_input.
  destruct (bool_decide (a_type action = input)) eqn:Hi; simpl; [|done].
  apply bool_decide_eq_true in Hi.
  assert (Hnew : ∀ id, step_from actions (new_amount_step action id)).
  { intros id. exists action. simpl. repeat split; try done. by right. }
  destruct (_ || _); [|done].
  destruct (find_first _ _) as [[j lastInput]|] eqn:Hfind; [|by apply flow_push_from].
  destruct (ts_or_nan_diff_gt _ _ _); [by apply flow_push_from|]. simpl.
  apply find_first_Some in Hfind as [Hj _].
  apply Forall_insert; [done|].
  rewrite Forall_forall in Hall.
  destruct (Hall lastInput) as (a & Ha & Hela & Hts & Hsel & Hkind).
  { by eapply list_elem_of_lookup_2. }
  exists a. by repeat split.
Qed.

Lemma button_branch_from actions recognise kind action buttonText st :
  kind ≠ INPUT_AMOUNT →
  action ∈ actions → is_Some (a_element action) →
  Forall (step_from actions) (swapFlow st) →
  Forall (step_from actions) (swapFlow (button_branch recognise kind action buttonText st)).
Proof.
  intros Hkind Hin Hel Hall. unfold button_branch.
  destruct (bool_decide (a_type action = click)) eqn:Hc; simpl; [|done].
  apply bool_decide_eq_true in Hc. destruct (recognise buttonText); [|done].
  apply flow_push_from; [done|]. exists action. simpl. repeat split; try done. by left.
Qed.

Lemma flow_step_from actions index action st :
  action ∈ actions →
  Forall (step_from actions) (swapFlow st) →
  Forall (step_from actions) (swapFlow (flow_step actions index action st)).
Proof.
  intros Hin Hall. unfold flow_step.
  destruct (a_element action) as [element|] eqn:Hel; [|done].
  assert (is_Some (a_element action)) by (by rewrite Hel).
  cbv zeta.
  repeat (apply button_branch_from; [done|done|done|]).
  apply amount_branch_from; [done|done|].
  by apply token_branch_from.
Qed.

Lemma flow_loop_from actions index rest st :
  (∀ a, a ∈ rest → a ∈ actions) →
  Forall (step_from actions) (swapFlow st) →
  Forall (step_from actions) (swapFlow (flow_loop actions index rest st)).
Proof.
  revert index st. induction rest as [|a rest IH]; intros index st Hsub Hall; simpl; [done|].
  apply IH.
  - intros b Hb. apply Hsub. by right.
  - apply flow_step_from; [|done]. apply Hsub. by left.
Qed.

Lemma flow_finish_from actions (flow : list SwapAction) :
  Forall (step_from actions) flow → Forall (step_from actions) (flow_finish flow).
Proof.
  intros Hall. apply Forall_lookup. intros i s Hs.
  rewrite flow_finish_lookup in Hs.
  destruct (sort_by ts_or_0 flow !! i) as [s'|] eqn:Hs'; [|done].
  simpl in Hs. simplify_eq.
  assert (Hin : s' ∈ flow).
  { rewrite <- (sort_by_perm ts_or_0 flow). by eapply list_elem_of_lookup_2. }
  rewrite Forall_forall in Hall. destruct (Hall s' Hin) as (a & Ha & ?).
  by exists a.
Qed.
End FlowProvenance.

(** X6: every step of the swap flow carries the timestamp and the selector
    of a click or an input of the given actions that has an element
    descriptor; INPUT_AMOUNT steps come from inputs and from inputs only,
    all other steps from clicks.  (An amount step that later inputs update
    in place keeps the timestamp and selector of the input that created
    it.) *)
Theorem swapFlow_provenance (actions : list RecordedAction) :
  Forall (step_from actions) (extractEnhancedSwapFlow actions).
Proof.
  unfold extractEnhancedSwapFlow. apply flow_finish_from, flow_loop_from; [done|].
  constructor.
Qed.

(** ** Header sanitizing, once more *)

Section SanitizeMore.
Implicit Types (h out acc : list (string * string)).

Lemma obj_set_keys key value out :
  (out.*1 = (obj_set key value out).*1)
  ∨ ((key ∉ out.*1) ∧ obj_set key value out = out ++ [(key, value)]).
Proof.
  induction out as [|[k v] out IH]; simpl.
  - right. split; [by intros ?%elem_of_nil|done].
  - destruct (String.eqb k key) eqn:Hk; [by left|].
    apply String.eqb_neq in Hk.
    destruct IH as [IH|[Hnot IH]].
    + left. change (k :: out.*1 = k :: (obj_set key value out).*1). by f_equal.
    + right. split.
      * change (key ∉ k :: out.*1). intros [?|?]%elem_of_cons; [congruence|done].
      * by rewrite IH.
Qed.

Lemma obj_set_NoDup key value out : NoDup out.*1 → NoDup (obj_set key value out).*1.
Proof.
  intros Hnd. destruct (obj_set_keys key value out) as [<-|[Hnot ->]]; [done|].
  rewrite fmap_app. apply NoDup_app. split; [done|]. split.
  - intros k Hk Hk'. simpl in Hk'. apply list_elem_of_singleton in Hk'. by subst.
  - apply NoDup_singleton.
Qed.

Lemma sanitize_fold_NoDup h acc :
  NoDup acc.*1 → NoDup (fold_left sanitize_step h acc).*1.
Proof.
  revert acc. induction h as [|[k v] h IH]; intros acc Hnd; simpl; [done|].
  apply IH. repeat case_match; try done; by apply obj_set_NoDup.
Qed.

(** Entries that are already sanitized and whose keys are new are copied. *)
Lemma sanitize_fold_fixed out acc :
  Forall sanitized_entry out → NoDup (acc.*1 ++ out.*1) →
  fold_left sanitize_step out acc = acc ++ out.
Proof.
  revert acc. induction out as [|[k v] out IH]; intros acc Hall Hnd.
  - simpl. by rewrite app_nil_r.
  - change (fold_left sanitize_step out (sanitize_step acc (k, v)) = acc ++ (k, v) :: out).
    apply Forall_cons in Hall as [[Himp Hmask] Hall]. simpl in Himp, Hmask.
    apply is_important_spec in Himp.
    assert (Hk : k ∉ acc.*1).
    { apply NoDup_app in Hnd as (_ & Hdisj & _). intros Hin.
      apply (Hdisj k Hin). simpl. by left. }
    assert (Hstep : sanitize_step acc (k, v) = acc ++ [(k, v)]).
    { unfold sanitize_step. rewrite Himp.
      destruct (is_sensitive k) eqn:Hs.
      - apply is_sensitive_spec in Hs. rewrite (Hmask Hs).
        destruct (obj_set_keys k MASKED acc) as [Heq|[_ ->]]; [|done].
        destruct Hk. rewrite Heq. clear. induction acc as [|[k' v'] acc IH]; simpl.
        + by left.
        + destruct (String.eqb k' k) eqn:E; simpl.
          * apply String.eqb_eq in E as ->. by left.
          * by right.
      - destruct (obj_set_keys k v acc) as [Heq|[_ ->]]; [|done].
        destruct Hk. rewrite Heq. clear. induction acc as [|[k' v'] acc IH]; simpl.
        + by left.
        + destruct (String.eqb k' k) eqn:E; simpl.
          * apply String.eqb_eq in E as ->. by left.
          * by right. }
    rewrite Hstep, IH; [by rewrite <- app_assoc|done|].
    rewrite fmap_app. simpl. by rewrite <- app_assoc.
Qed.
End SanitizeMore.

(** X7: sanitizing is idempotent, and the sanitized headers have pairwise
    distinct keys: sanitizing an already sanitized header object returns it
    unchanged. *)
Theorem sanitizeHeaders_idempotent (headers : option (list (string * string))) :
  NoDup (sanitizeHeaders headers).*1
  ∧ sanitizeHeaders (Some (sanitizeHeaders headers)) = sanitizeHeaders headers.
Proof.
  assert (Hnd : NoDup (sanitizeHeaders headers).*1).
  { destruct headers as [h|]; simpl; [|constructor].
    apply sanitize_fold_NoDup. constructor. }
  split; [exact Hnd|].
  change (fold_left sanitize_step (sanitizeHeaders headers) [] = sanitizeHeaders headers).
  rewrite sanitize_fold_fixed; [done| |done].
  destruct headers as [h|]; simpl; [|constructor].
  apply sanitize_fold_Forall. constructor.
Qed.

(** ** Pass 3, once more *)

Section ApiTable.
Variable new_URL : string → option URL.
Implicit Types (apiMap : list (string * ApiEndpoint)) (requests more : list NetworkRequest).

Lemma api_step_prefix apiMap request : apiMap `prefix_of` api_step new_URL apiMap request.
Proof.
  unfold api_step. cbv zeta. destruct (api_has _ _); [done|]. by apply prefix_app_r.
Qed.

Lemma api_fold_prefix more apiMap :
  apiMap `prefix_of` fold_left (api_step new_URL) more apiMap.
Proof.
  revert apiMap. induction more as [|r more IH]; intros apiMap; simpl; [done|].
  etrans; [apply api_step_prefix|apply IH].
Qed.

Lemma api_step_covers apiMap request :
  api_key new_URL request ∈ (api_step new_URL apiMap request).*1.
Proof.
  unfold api_step. cbv zeta. destruct (api_has _ _) eqn:Hhas.
  - by apply api_has_spec.
  - rewrite fmap_app. apply elem_of_app. right. simpl. by left.
Qed.

Lemma api_fold_covers requests apiMap request :
  request ∈ requests →
  api_key new_URL request ∈ (fold_left (api_step new_URL) requests apiMap).*1.
Proof.
  revert apiMap. induction requests as [|r requests IH]; intros apiMap Hin; simpl.
  - by apply elem_of_nil in Hin.
  - apply elem_of_cons in Hin as [->|Hin]; [|by apply IH].
    destruct (api_fold_prefix requests (api_step new_URL apiMap r)) as [k ->].
    rewrite fmap_app. apply elem_of_app. left. apply api_step_covers.
Qed.

Lemma api_fold_length requests apiMap :
  (length (fold_left (api_step new_URL) requests apiMap) ≤ length apiMap + length requests)%nat.
Proof.
  revert apiMap. induction requests as [|r requests IH]; intros apiMap; simpl; [lia|].
  etrans; [apply IH|]. unfold api_step. cbv zeta.
  destruct (api_has _ _); rewrite ?length_app; simpl; lia.
Qed.
End ApiTable.

(** X8: in the endpoint table the first request of a key wins: requests
    seen later only append entries and never change or reorder the ones
    already there; the table starts with the entry built from the first
    request; every request is represented by the entry of its key
    [method_normalizedUrl]; and the table is never longer than the list of
    requests. *)
Theorem apiEndpoints_first_wins
    (new_URL : string → option URL) (requests more : list NetworkRequest) :
  extractEnhancedApiPatterns new_URL requests
    `prefix_of` extractEnhancedApiPatterns new_URL (requests ++ more)
  ∧ (∀ request, request ∈ requests →
       ∃ e, e ∈ extractEnhancedApiPatterns new_URL requests
            ∧ endpoint_key e = api_key new_URL request)
  ∧ (∀ first, head requests = Some first →
       ∃ e, head (extractEnhancedApiPatterns new_URL requests) = Some e
            ∧ from_request new_URL first e)
  ∧ (length (extractEnhancedApiPatterns new_URL requests) ≤ length requests)%nat.
Proof.
  unfold extractEnhancedApiPatterns.
  split; [|split; [|split]].
  - rewrite fold_left_app.
    destruct (api_fold_prefix new_URL more (fold_left (api_step new_URL) requests [])) as [k ->].
    rewrite fmap_app. by apply prefix_app_r.
  - intros request Hin.
    pose proof (api_fold_covers new_URL requests [] request Hin) as Hk.
    destruct (api_fold_inv new_URL requests [] []) as [_ Hall]; [by split; constructor|].
    apply list_elem_of_fmap in Hk as ([k e] & -> & Hke).
    exists e. split; [apply list_elem_of_fmap; by exists (k, e)|].
    rewrite Forall_forall in Hall. destruct (Hall _ Hke) as [Hkey _]. simpl in Hkey.
    by rewrite <- Hkey.
  - intros first Hfirst. destruct requests as [|r requests]; [done|].
    simpl in Hfirst. simplify_eq. simpl.
    destruct (api_fold_prefix new_URL requests (api_step new_URL [] first)) as [k ->].
    unfold api_step at 1. cbv zeta. simpl. eexists. split; [reflexivity|].
    by repeat split.
  - rewrite length_fmap.
    pose proof (api_fold_length new_URL requests []) as H. simpl in H. exact H.
Qed.

Lemma apiEndpoints_first_wins_witness :
  let first := get_request "1" 10 None None "https://x/api/quote?x=1" in
  let second := get_request "2" 20 (Some [("referer", "https://x/")]) None
                  "https://x/api/quote?y=2" in
  head [first; second] = Some first
  ∧ ∃ e, head (extractEnhancedApiPatterns HttpURL.parse [first; second]) = Some e
         ∧ from_request HttpURL.parse first e.
Proof.
  cbv zeta. split; [reflexivity|].
  exact (proj1 (proj2 (proj2 (apiEndpoints_first_wins HttpURL.parse
           [ get_request "1" 10 None None "https://x/api/quote?x=1";
             get_request "2" 20 (Some [("referer", "https://x/")]) None
               "https://x/api/quote?y=2" ] []))) _ eq_refl).
Defined.

(** ** Pass 4, once more *)

Section SelectorRoles.
Implicit Types (m : gmap string string) (a : RecordedAction) (actions : list RecordedAction).

(** What an iteration does to each role, and to any other key. *)
Lemma selector_step_roles m a :
  selector_step m a !! "fromTokenButton"
    = from_option Some (m !! "fromTokenButton") (offers_fromTokenButton a)
  ∧ selector_step m a !! "toTokenButton"
    = from_option Some (m !! "toTokenButton") (offers_toTokenButton a)
  ∧ selector_step m a !! "amountInput"
    = from_option Some (offers_amountInput a) (m !! "amountInput")
  ∧ selector_step m a !! "swapButton"
    = from_option Some (m !! "swapButton") (offers_swapButton a)
  ∧ selector_step m a !! "approveButton"
    = from_option Some (m !! "approveButton") (offers_approveButton a)
  ∧ ∀ k, k ∉ selector_roles → selector_step m a !! k = m !! k.
Proof.
  unfold selector_step, offers_fromTokenButton, offers_toTokenButton, offers_amountInput,
    offers_swapButton, offers_approveButton, offers, harvested.
  destruct (a_selector a) as [sel|]; [|by split_and!; try destruct (m !! _)].
  destruct (a_element a) as [el|]; [|by split_and!; try destruct (m !! _)].
  destruct (String.eqb sel ""); [by split_and!; try destruct (m !! _)|].
  cbv zeta.
  unfold bind_button, bind_amountInput, bind_token_buttons,
    is_select_token, is_from_side, is_to_side.
  destruct (JS.includes (elem_text_lower el) "select" && JS.includes (elem_text_lower el) "token");
    destruct (JS.includes (elem_text_lower el) "from" || JS.includes (elem_text_lower el) "pay");
    destruct (JS.includes (elem_text_lower el) "to" || JS.includes (elem_text_lower el) "receive");
    destruct (bool_decide (a_type a = input) && isEnhancedAmountField a);
    destruct (isEnhancedSwapButton (JS.or_empty (e_text el)));
    destruct (isEnhancedApproveButton (JS.or_empty (e_text el)));
    simpl; split_and!;
    try (intros k Hk;
         assert (k ≠ "fromTokenButton" ∧ k ≠ "toTokenButton" ∧ k ≠ "amountInput"
                 ∧ k ≠ "swapButton" ∧ k ≠ "approveButton") as (?&?&?&?&?)
           by (unfold selector_roles in Hk; split_and!; set_solver));
    repeat first
      [ rewrite lookup_insert_eq
      | rewrite lookup_insert_ne by done
      | match goal with |- context [match ?o with Some _ => _ | None => _ end] =>
          destruct o eqn:? end ];
    simpl; first [congruence | by destruct (m !! "amountInput")].
Qed.

Lemma selector_fold_last (role : string) (offer : RecordedAction → option string) actions m :
  (∀ m a, selector_step m a !! role = from_option Some (m !! role) (offer a)) →
  fold_left selector_step actions m !! role
  = from_option Some (m !! role) (last (omap offer actions)).
Proof.
  intros Hstep. revert m. induction actions as [|a actions IH]; intros m; [done|].
  cbn [fold_left]. rewrite IH, Hstep.
  change (omap offer (a :: actions))
    with (match offer a with Some y => y :: omap offer actions | None => omap offer actions end).
  destruct (offer a) as [s|]; [|done].
  destruct (omap offer actions) as [|s' l] eqn:Hl; [done|].
  rewrite last_cons_cons. destruct (last (s' :: l)) eqn:E; [done|].
  by apply last_None in E.
Qed.

Lemma selector_fold_first actions m :
  fold_left selector_step actions m !! "amountInput"
  = from_option Some (head (omap offers_amountInput actions)) (m !! "amountInput").
Proof.
  revert m. induction actions as [|a actions IH]; intros m.
  - simpl. by destruct (m !! _).
  - cbn [fold_left]. rewrite IH. destruct (selector_step_roles m a) as (_ & _ & -> & _).
    change (omap offers_amountInput (a :: actions))
      with (match offers_amountInput a with
            | Some y => y :: omap offers_amountInput actions
            | None => omap offers_amountInput actions
            end).
    destruct (m !! "amountInput"); simpl; [done|].
    by destruct (offers_amountInput a).
Qed.

Lemma selector_fold_other actions m k :
  k ∉ selector_roles → fold_left selector_step actions m !! k = m !! k.
Proof.
  intros Hk. revert m. induction actions as [|a actions IH]; intros m; simpl; [done|].
  rewrite IH. by apply selector_step_roles.
Qed.
End SelectorRoles.

(** X9: the [amountInput] role is bound to the selector of the first action
    that qualifies for it (an input with a non-empty selector and an element
    that looks like an amount field) and later ones never change it; the
    selector map has no key besides the five roles. *)
Theorem essentialSelectors_amountInput (actions : list RecordedAction) :
  extractEssentialSelectors actions !! "amountInput" = head (omap offers_amountInput actions)
  ∧ ∀ k, k ∉ selector_roles → extractEssentialSelectors actions !! k = None.
Proof.
  unfold extractEssentialSelectors. split.
  - rewrite selector_fold_first, lookup_empty. done.
  - intros k Hk. by rewrite selector_fold_other, lookup_empty.
Qed.

(** X10: each of the four button roles is bound to the selector of the
    last action that qualifies for it: a later qualifying action overwrites
    the binding.  For the two token buttons an action qualifies when its
    text mentions select and token, on the from side when it also mentions
    from or pay, otherwise on the to side when it mentions to or receive. *)
Theorem essentialSelectors_buttons (actions : list RecordedAction) :
  let selectors := extractEssentialSelectors actions in
  selectors !! "swapButton" = last (omap offers_swapButton actions)
  ∧ selectors !! "approveButton" = last (omap offers_approveButton actions)
  ∧ selectors !! "fromTokenButton" = last (omap offers_fromTokenButton actions)
  ∧ selectors !! "toTokenButton" = last (omap offers_toTokenButton actions).
Proof.
  cbv zeta. unfold extractEssentialSelectors.
  split_and!.
  - rewrite (selector_fold_last "swapButton" offers_swapButton); [by destruct (last _)|].
    intros m a. by destruct (selector_step_roles m a) as (?&?&?&?&?&?).
  - rewrite (selector_fold_last "approveButton" offers_approveButton); [by destruct (last _)|].
    intros m a. by destruct (selector_step_roles m a) as (?&?&?&?&?&?).
  - rewrite (selector_fold_last "fromTokenButton" offers_fromTokenButton);
      [by destruct (last _)|].
    intros m a. by destruct (selector_step_roles m a) as (?&?&?&?&?&?).
  - rewrite (selector_fold_last "toTokenButton" offers_toTokenButton); [by destruct (last _)|].
    intros m a. by destruct (selector_step_roles m a) as (?&?&?&?&?&?).
Qed.

(** ** The session orchestrator, once more *)

Section Sessions.
Variable uuidv4 : nat → string.
Implicit Types (eng : Engine) (ses : Session) (events : list Event).

Lemma ids_issued_push_action mk eng :
  ids_issued uuidv4 eng → (∀ id, a_id (mk id) = id) →
  ids_issued uuidv4 (push_action uuidv4 mk eng).
Proof.
  intros (r & ia & inn & Hr & Ha & Hn & Hnd & Hlt) Hid.
  exists r, (ia ++ [uuid_calls eng]), inn. unfold push_action; simpl.
  assert (Hperm : r :: (ia ++ [uuid_calls eng]) ++ inn ≡ₚ uuid_calls eng :: r :: ia ++ inn).
  { rewrite <- app_assoc. simpl. rewrite <- Permutation_middle. apply Permutation_swap. }
  split_and!; try done.
  - rewrite !fmap_app, Ha. simpl. by rewrite Hid.
  - rewrite Hperm. constructor; [|done].
    intros Hin. rewrite Forall_forall in Hlt. specialize (Hlt _ Hin). lia.
  - rewrite Hperm. constructor; [lia|].
    eapply Forall_impl; [exact Hlt|]. simpl. lia.
Qed.

Lemma ids_issued_on_framenavigated now isMainFrame url eng :
  ids_issued uuidv4 eng → ids_issued uuidv4 (on_framenavigated uuidv4 now isMainFrame url eng).
Proof.
  intros H. unfold on_framenavigated. destruct (_ && _); [|done].
  by apply ids_issued_push_action.
Qed.

Lemma ids_issued_on_request now url method headers postData resourceType eng :
  ids_issued uuidv4 eng →
  ids_issued uuidv4 (on_request uuidv4 now url method headers postData resourceType eng).
Proof.
  intros (r & ia & inn & Hr & Ha & Hn & Hnd & Hlt). unfold on_request.
  destruct (negb _); [by exists r, ia, inn|].
  destruct (request_relevant _ _); [|by exists r, ia, inn].
  exists r, ia, (inn ++ [uuid_calls eng]). simpl.
  assert (Hperm : r :: ia ++ inn ++ [uuid_calls eng] ≡ₚ uuid_calls eng :: r :: ia ++ inn).
  { rewrite app_assoc, <- Permutation_cons_append. apply Permutation_swap. }
  split_and!; try done.
  - by rewrite !fmap_app, Hn.
  - rewrite Hperm. constructor; [|done].
    intros Hin. rewrite Forall_forall in Hlt. specialize (Hlt _ Hin). lia.
  - rewrite Hperm. constructor; [lia|].
    eapply Forall_impl; [exact Hlt|]. simpl. lia.
Qed.

Lemma ids_issued_trim eng actions' networkRequests' :
  ids_issued uuidv4 eng →
  actions' `suffix_of` actions eng → networkRequests' `suffix_of` networkRequests eng →
  ids_issued uuidv4 {| recording := recording eng; recordingId := recordingId eng;
                       actions := actions'; networkRequests := networkRequests';
                       startTime := startTime eng; uuid_calls := uuid_calls eng |}.
Proof.
  intros (r & ia & inn & Hr & Ha & Hn & Hnd & Hlt) [ka Hka] [kn Hkn].
  exists r, (drop (length ka) ia), (drop (length kn) inn). simpl.
  assert (Hda : a_id <$> actions' = uuidv4 <$> drop (length ka) ia).
  { rewrite fmap_drop, <- Ha, Hka, fmap_app, drop_app_length'; [done|by rewrite length_fmap]. }
  assert (Hdn : n_id <$> networkRequests' = uuidv4 <$> drop (length kn) inn).
  { rewrite fmap_drop, <- Hn, Hkn, fmap_app, drop_app_length'; [done|by rewrite length_fmap]. }
  assert (Hsub : r :: drop (length ka) ia ++ drop (length kn) inn `sublist_of` r :: ia ++ inn).
  { apply sublist_skip, sublist_app; apply sublist_drop. }
  split_and!; try done.
  - by eapply sublist_NoDup.
  - apply Forall_forall. intros i Hi. rewrite Forall_forall in Hlt.
    apply Hlt. by eapply elem_of_sublist.
Qed.

Lemma slice_last_suffix {A} keepCount (xs : list A) : slice_last keepCount xs `suffix_of` xs.
Proof. unfold slice_last. apply suffix_drop. Qed.

Lemma cleanupMemory_suffix now ses :
  actions (ses_engine (cleanupMemory now ses)) `suffix_of` actions (ses_engine ses)
  ∧ networkRequests (ses_engine (cleanupMemory now ses))
      `suffix_of` networkRequests (ses_engine ses).
Proof.
  unfold cleanupMemory; simpl. split; case_match; try done; apply slice_last_suffix.
Qed.

Lemma memory_tick_suffix now ses :
  actions (ses_engine (memory_tick now ses)) `suffix_of` actions (ses_engine ses)
  ∧ networkRequests (ses_engine (memory_tick now ses))
      `suffix_of` networkRequests (ses_engine ses).
Proof.
  unfold memory_tick. destruct (negb _); [done|]. cbv zeta.
  destruct (shouldCleanupMemory _ _); [|done].
  match goal with |- context [cleanupMemory now ?s] => exact (cleanupMemory_suffix now s) end.
Qed.

Lemma memory_tick_engine now ses :
  ses_engine (memory_tick now ses) =
  {| recording := recording (ses_engine ses); recordingId := recordingId (ses_engine ses);
     actions := actions (ses_engine (memory_tick now ses));
     networkRequests := networkRequests (ses_engine (memory_tick now ses));
     startTime := startTime (ses_engine ses); uuid_calls := uuid_calls (ses_engine ses) |}.
Proof.
  unfold memory_tick. destruct (negb _); [by destruct (ses_engine ses)|]. cbv zeta.
  destruct (shouldCleanupMemory _ _); [done|]. simpl. by destruct (ses_engine ses).
Qed.

Lemma ids_issued_handle ses ev :
  ids_issued uuidv4 (ses_engine ses) → ids_issued uuidv4 (ses_engine (handle uuidv4 ses ev)).
Proof.
  intros H. destruct ev as [now isMain url|now url method headers postData resourceType|now|context];
    simpl.
  - by apply ids_issued_on_framenavigated.
  - by apply ids_issued_on_request.
  - rewrite memory_tick_engine.
    destruct (memory_tick_suffix now ses). by apply ids_issued_trim.
  - unfold handleRecordingError. cbv zeta. destruct (_ <=? _)%nat; simpl; [|done].
    destruct H as (r & ia & inn & ?). by exists r, ia, inn.
Qed.

Lemma ids_issued_run events ses :
  ids_issued uuidv4 (ses_engine ses) → ids_issued uuidv4 (ses_engine (run uuidv4 events ses)).
Proof.
  revert ses. induction events as [|ev events IH]; intros ses H; simpl; [done|].
  by apply IH, ids_issued_handle.
Qed.

Lemma ids_issued_start now ses :
  ids_issued uuidv4 (ses_engine (session_start uuidv4 now ses)).
Proof.
  exists (uuid_calls (ses_engine ses)), [], []. simpl.
  split_and!; try done.
  - apply NoDup_singleton.
  - constructor; [lia|constructor].
Qed.

Lemma ids_issued_push_page_actions pageActions eng :
  ids_issued uuidv4 eng →
  ids_issued uuidv4 (fold_left (push_page_action uuidv4) pageActions eng).
Proof.
  revert eng. induction pageActions as [|p ps IH]; intros eng H; simpl; [done|].
  apply IH. unfold push_page_action. by apply ids_issued_push_action.
Qed.

Lemma ids_issued_stop frames now page_url eng :
  ids_issued uuidv4 eng →
  ids_issued uuidv4 (stopRecording uuidv4 frames now page_url eng).1.
Proof.
  intros H. unfold stopRecording. cbv zeta. simpl.
  apply ids_issued_push_page_actions.
  destruct H as (r & ia & inn & ?). by exists r, ia, inn.
Qed.

Lemma stopRecording_fields frames now page_url eng :
  let out := stopRecording uuidv4 frames now page_url eng in
  r_id out.2 = recordingId out.1
  ∧ r_actions out.2 = actions out.1
  ∧ r_networkRequests out.2 = networkRequests out.1.
Proof. done. Qed.
End Sessions.

Lemma tally_inj : Inj (=) (=) tally.
Proof.
  intros n. induction n as [|n IH]; intros [|m] H; simpl in H; try done.
  f_equal. apply IH. by injection H.
Qed.

(** X11: as long as [uuidv4] never returns the same identifier twice, the
    recording returned by [stopRecording] at the end of a session (any
    navigations, requests, memory ticks and errors in between, whatever the
    engine was used for before) has pairwise distinct action ids and
    request ids, all different from the recording's own id. *)
Theorem session_ids_unique
    (uuidv4 : nat → string) (before : Session) (start : Z) (events : list Event)
    (frames : list (option (list PageAction))) (now : Z) (page_url : string) :
  Inj (=) (=) uuidv4 →
  let ses := run uuidv4 events (session_start uuidv4 start before) in
  let rec := (stopRecording uuidv4 frames now page_url (ses_engine ses)).2 in
  NoDup (r_id rec :: (a_id <$> r_actions rec) ++ (n_id <$> r_networkRequests rec)).
Proof.
  intros Hinj. cbv zeta.
  destruct (stopRecording_fields uuidv4 frames now page_url
              (ses_engine (run uuidv4 events (session_start uuidv4 start before))))
    as (-> & -> & ->).
  destruct (ids_issued_stop uuidv4 frames now page_url _
              (ids_issued_run uuidv4 events _ (ids_issued_start uuidv4 start before)))
    as (r & ia & inn & -> & -> & -> & Hnd & _).
  rewrite <- fmap_app.
  change (NoDup (uuidv4 <$> r :: ia ++ inn)).
  by apply (NoDup_fmap_2 uuidv4).
Qed.

Lemma session_ids_unique_witness :
  let events := [ Navigated 1500 true "https://dex.example/swap";
                  Requested 1600 "https://dex.example/api/quote" "GET" [] None "xhr";
                  MemoryTick 31000 ] in
  let ses := run tally events (session_start tally 1000 (session_new 0)) in
  let rec := (stopRecording tally [Some [Example3.link_click]] 40000
                "https://dex.example/swap" (ses_engine ses)).2 in
  NoDup (r_id rec :: (a_id <$> r_actions rec) ++ (n_id <$> r_networkRequests rec)).
Proof.
  cbv zeta.
  exact (session_ids_unique tally (session_new 0) 1000
           [ Navigated 1500 true "https://dex.example/swap";
             Requested 1600 "https://dex.example/api/quote" "GET" [] None "xhr";
             MemoryTick 31000 ]
           [Some [Example3.link_click]] 40000 "https://dex.example/swap" tally_inj).
Defined.

Section Capture.
Variable uuidv4 : nat → string.
Implicit Types (eng : Engine) (ses : Session) (events : list Event).

Lemma handle_recorded_ok ses ev :
  Forall recorded_ok (networkRequests (ses_engine ses)) →
  Forall recorded_ok (networkRequests (ses_engine (handle uuidv4 ses ev))).
Proof.
  intros H. destruct ev as [now isMain url|now url method headers postData resourceType|now|context];
    simpl.
  - unfold on_framenavigated. by destruct (_ && _).
  - unfold on_request. destruct (negb _); [done|].
    destruct (request_relevant url method) eqn:Hrel; [|done]. simpl.
    apply Forall_app. split; [done|]. by constructor.
  - destruct (memory_tick_suffix now ses) as [_ [k Hk]]. rewrite Hk in H.
    by apply Forall_app in H as [_ ?].
  - unfold handleRecordingError. cbv zeta. by destruct (_ <=? _)%nat.
Qed.

Lemma run_recorded_ok events ses :
  Forall recorded_ok (networkRequests (ses_engine ses)) →
  Forall recorded_ok (networkRequests (ses_engine (run uuidv4 events ses))).
Proof.
  revert ses. induction events as [|ev events IH]; intros ses H; simpl; [done|].
  by apply IH, handle_recorded_ok.
Qed.

Lemma push_page_actions_networkRequests (pageActions : list PageAction) eng :
  networkRequests (fold_left (push_page_action uuidv4) pageActions eng) = networkRequests eng.
Proof.
  revert eng. induction pageActions as [|p ps IH]; intros eng; simpl; [done|]. by rewrite IH.
Qed.

Lemma stop_networkRequests frames now page_url eng :
  networkRequests (stopRecording uuidv4 frames now page_url eng).1 = networkRequests eng.
Proof.
  unfold stopRecording. cbv zeta. simpl. by rewrite push_page_actions_networkRequests.
Qed.
End Capture.

Lemma includes_prefix_pattern (s p q : string) :
  JS.includes s (p +:+ q) = true → JS.includes s p = true.
Proof.
  assert (Hsw : ∀ s, JS.startsWith (p +:+ q) s = true → JS.startsWith p s = true).
  { clear s. induction p as [|a p IH]; intros s; [by destruct s|].
    change (String a p +:+ q) with (String a (p +:+ q)). simpl.
    destruct s as [|b s]; [done|]. destruct (Ascii.eqb a b); [apply IH|done]. }
  induction s as [|a s IH]; simpl.
  - rewrite !orb_false_r. apply Hsw.
  - intros [H|H]%orb_true_iff; apply orb_true_iff; [left; by apply Hsw|right; by apply IH].
Qed.

(** X12: every network request of a recording passed the relevance test of
    the request listener; in particular its url contains none of [.png],
    [.jpg], [.css], [.js], [font], [favicon].  As [.json] contains [.js], a
    url that contains [.json] is never retained, although [.json] is one of
    the keywords of the test. *)
Theorem recorded_requests_relevant
    (uuidv4 : nat → string) (before : Session) (start : Z) (events : list Event)
    (frames : list (option (list PageAction))) (now : Z) (page_url : string) :
  let ses := run uuidv4 events (session_start uuidv4 start before) in
  let rec := (stopRecording uuidv4 frames now page_url (ses_engine ses)).2 in
  Forall (λ r, request_relevant (n_url r) (n_method r) = true
               ∧ JS.includes (n_url r) ".png" = false
               ∧ JS.includes (n_url r) ".jpg" = false
               ∧ JS.includes (n_url r) ".css" = false
               ∧ JS.includes (n_url r) ".js" = false
               ∧ JS.includes (n_url r) "font" = false
               ∧ JS.includes (n_url r) "favicon" = false
               ∧ JS.includes (n_url r) ".json" = false)
         (r_networkRequests rec).
Proof.
  cbv zeta.
  destruct (stopRecording_fields uuidv4 frames now page_url
              (ses_engine (run uuidv4 events (session_start uuidv4 start before))))
    as (_ & _ & ->).
  rewrite stop_networkRequests.
  eapply Forall_impl.
  - apply run_recorded_ok. simpl. constructor.
  - intros r Hr. unfold recorded_ok in Hr. split; [done|].
    unfold request_relevant in Hr.
    repeat (apply andb_true_iff in Hr as [Hr ?%negb_true_iff]).
    split_and!; try done.
    destruct (JS.includes (n_url r) ".json") eqn:Hjson; [|done].
    apply (includes_prefix_pattern _ ".js" "on") in Hjson. congruence.
Qed.

(** X13: an engine that is not recording (before [startRecording], after
    [stopRecording], after the error ceiling) ignores navigations, requests
    and memory ticks, and errors only count: its actions, requests,
    identifiers and flag stay as they are. *)
Theorem idle_engine_unchanged (uuidv4 : nat → string) (ses : Session) (events : list Event) :
  recording (ses_engine ses) = false →
  ses_engine (run uuidv4 events ses) = ses_engine ses.
Proof.
  revert ses. induction events as [|ev events IH]; intros ses Hrec; simpl; [done|].
  assert (Hstep : ses_engine (handle uuidv4 ses ev) = ses_engine ses).
  { destruct ev as [now isMain url|now url method headers postData resourceType|now|context];
      simpl.
    - unfold on_framenavigated. by rewrite Hrec, andb_false_r.
    - unfold on_request. by rewrite Hrec.
    - unfold memory_tick. by rewrite Hrec.
    - unfold handleRecordingError. cbv zeta. destruct (_ <=? _)%nat; simpl; [|done].
      destruct (ses_engine ses); simpl in *. by rewrite Hrec. }
  rewrite IH; [done|]. by rewrite Hstep.
Qed.

Lemma idle_engine_unchanged_witness :
  let stopped := (stopRecording tally [] 2000 "https://dex.example/"
                    (startRecording tally 1000 engine_new)).1 in
  let ses := {| ses_engine := stopped; ses_memory := ses_memory (session_new 0);
                ses_errorCount := 0 |} in
  recording (ses_engine ses) = false
  ∧ ses_engine (run tally [ Navigated 2500 true "https://dex.example/pool";
                            Requested 2600 "https://dex.example/api/x" "POST" [] None "xhr" ]
                  ses) = ses_engine ses.
Proof.
  cbv zeta. split; [reflexivity|].
  exact (idle_engine_unchanged tally
           {| ses_engine := (stopRecording tally [] 2000 "https://dex.example/"
                               (startRecording tally 1000 engine_new)).1;
              ses_memory := ses_memory (session_new 0); ses_errorCount := 0 |}
           [ Navigated 2500 true "https://dex.example/pool";
             Requested 2600 "https://dex.example/api/x" "POST" [] None "xhr" ]
           eq_refl).
Defined.

Section Ceiling.
Variable uuidv4 : nat → string.

Lemma handle_ceiling (ses : Session) (ev : Event) :
  recording (ses_engine ses) = bool_decide (ses_errorCount ses < maxErrors)%nat →
  ses_errorCount (handle uuidv4 ses ev) = (ses_errorCount ses + (if is_error ev then 1 else 0))%nat
  ∧ recording (ses_engine (handle uuidv4 ses ev))
    = bool_decide (ses_errorCount (handle uuidv4 ses ev) < maxErrors)%nat.
Proof.
  intros Hrec.
  destruct ev as [now isMain url|now url method headers postData resourceType|now|context];
    simpl.
  - split; [lia|]. rewrite <- Hrec. unfold on_framenavigated. by destruct (_ && _).
  - split; [lia|]. rewrite <- Hrec. unfold on_request.
    destruct (negb _); [done|]. by destruct (request_relevant _ _).
  - rewrite memory_tick_engine. simpl.
    assert (ses_errorCount (memory_tick now ses) = ses_errorCount ses) as ->.
    { unfold memory_tick. destruct (negb _); [done|]. cbv zeta.
      by destruct (shouldCleanupMemory _ _). }
    split; [lia|done].
  - unfold handleRecordingError. cbv zeta.
    destruct (maxErrors <=? S (ses_errorCount ses))%nat eqn:Hmax; simpl.
    + apply Nat.leb_le in Hmax. split; [lia|]. symmetry. apply bool_decide_eq_false. lia.
    + apply Nat.leb_gt in Hmax. split; [lia|]. rewrite Hrec.
      rewrite !bool_decide_eq_true_2; [done|lia|lia].
Qed.

Lemma run_ceiling (events : list Event) (ses : Session) :
  recording (ses_engine ses) = bool_decide (ses_errorCount ses < maxErrors)%nat →
  ses_errorCount (run uuidv4 events ses) = (ses_errorCount ses + error_count events)%nat
  ∧ recording (ses_engine (run uuidv4 events ses))
    = bool_decide (ses_errorCount (run uuidv4 events ses) < maxErrors)%nat.
Proof.
  revert ses. induction events as [|ev events IH]; intros ses Hrec.
  - simpl. split; [unfold error_count; simpl; lia|done].
  - destruct (handle_ceiling ses ev Hrec) as [Hc Hr].
    destruct (IH _ Hr) as [Hc' Hr']. split; [|exact Hr'].
    change (run uuidv4 (ev :: events) ses) with (run uuidv4 events (handle uuidv4 ses ev)).
    rewrite Hc', Hc. unfold error_count. rewrite filter_cons.
    destruct (is_error ev); [rewrite decide_True by done|rewrite decide_False by done];
      simpl; lia.
Qed.
End Ceiling.

(** X14: a session stops itself at its tenth error, not before and not
    later: after [startRecording] and any events, the error counter is the
    number of errors handled, and the engine is still recording exactly when
    that number is below ten. *)
Theorem error_ceiling
    (uuidv4 : nat → string) (before : Session) (start : Z) (events : list Event) :
  let ses := run uuidv4 events (session_start uuidv4 start before) in
  ses_errorCount ses = error_count events
  ∧ recording (ses_engine ses) = bool_decide (error_count events < 10)%nat.
Proof.
  cbv zeta.
  destruct (run_ceiling uuidv4 events (session_start uuidv4 start before)) as [Hc Hr];
    [done|].
  simpl in Hc. rewrite Hr, Hc. done.
Qed.

Lemma slice_last_length {A} (keepCount : Z) (xs : list A) :
  0 ≤ keepCount → keepCount ≤ Z.of_nat (length xs) →
  Z.of_nat (length (slice_last keepCount xs)) = keepCount.
Proof. intros H0 Hk. unfold slice_last. rewrite length_drop. lia. Qed.

(** X15: the memory guard only ever drops the oldest entries: after a tick
    each buffer is a suffix of what it was.  When the tick cleans up (the
    engine is recording and either more than five minutes have passed since
    the last cleanup, or more than 10000 actions or 5000 requests are
    buffered), at most 5000 actions and 3000 requests remain, a buffer that
    was over its limit keeps exactly its latest 3000 actions or 2000
    requests, and the time of the cleanup is noted. *)
Theorem memory_guard (now : Z) (ses : Session) :
  let eng := ses_engine ses in
  let after := memory_tick now ses in
  let eng' := ses_engine after in
  actions eng' `suffix_of` actions eng
  ∧ networkRequests eng' `suffix_of` networkRequests eng
  ∧ (recording eng = true →
     shouldCleanupMemory now
       {| mu_actions := Z.of_nat (length (actions eng));
          mu_network := Z.of_nat (length (networkRequests eng));
          mu_lastCleanup := mu_lastCleanup (ses_memory ses) |} = true →
     Z.of_nat (length (actions eng')) ≤ 5000
     ∧ Z.of_nat (length (networkRequests eng')) ≤ 3000
     ∧ (5000 < Z.of_nat (length (actions eng)) → Z.of_nat (length (actions eng')) = 3000)
     ∧ (3000 < Z.of_nat (length (networkRequests eng)) →
        Z.of_nat (length (networkRequests eng')) = 2000)
     ∧ mu_lastCleanup (ses_memory after) = now).
Proof.
  cbv zeta. split; [apply memory_tick_suffix|]. split; [apply memory_tick_suffix|].
  intros Hrec Hshould. unfold memory_tick. rewrite Hrec. cbv zeta. simpl negb. cbv iota.
  cbn [ses_memory ses_engine]. rewrite Hshould. unfold cleanupMemory. cbn.
  destruct (5000 <? Z.of_nat (length (actions (ses_engine ses)))) eqn:Ha;
    destruct (3000 <? Z.of_nat (length (networkRequests (ses_engine ses)))) eqn:Hn;
    rewrite ?Z.ltb_lt, ?Z.ltb_ge in Ha, Hn;
    rewrite ?slice_last_length by lia; split_and!; try done; lia.
Qed.

Lemma memory_guard_witness :
  let ses := run tally [ Navigated 1500 true "https://dex.example/swap" ]
               (session_start tally 1000 (session_new 0)) in
  recording (ses_engine ses) = true
  ∧ shouldCleanupMemory 400000
      {| mu_actions := Z.of_nat (length (actions (ses_engine ses)));
         mu_network := Z.of_nat (length (networkRequests (ses_engine ses)));
         mu_lastCleanup := mu_lastCleanup (ses_memory ses) |} = true
  ∧ mu_lastCleanup (ses_memory (memory_tick 400000 ses)) = 400000.
Proof.
  cbv zeta. split; [reflexivity|]. split; [reflexivity|].
  exact (proj2 (proj2 (proj2 (proj2
           (proj2 (proj2 (memory_guard 400000
              (run tally [ Navigated 1500 true "https://dex.example/swap" ]
                 (session_start tally 1000 (session_new 0))))) eq_refl eq_refl))))).
Defined.

Section StopShape.
Variable uuidv4 : nat → string.
Implicit Types (eng : Engine) (frames : list (option (list PageAction))).

Lemma drain_frames_concat frames : drain_frames frames = concat (omap id frames).
Proof.
  unfold drain_frames.
  assert (H : ∀ acc, fold_left (λ pageActions frame,
                        match frame with
                        | Some frameActions => pageActions ++ frameActions
                        | None => pageActions
                        end) frames acc = acc ++ concat (omap id frames)).
  { induction frames as [|[f|] frames IH]; intros acc.
    - simpl. by rewrite app_nil_r.
    - cbn [fold_left]. rewrite IH.
      change (omap id (Some f :: frames)) with (f :: omap id frames).
      simpl. by rewrite app_assoc.
    - cbn [fold_left]. by rewrite IH. }
  by rewrite H.
Qed.

Lemma push_page_actions_prefix (pageActions : list PageAction) eng :
  actions eng `prefix_of` actions (fold_left (push_page_action uuidv4) pageActions eng).
Proof.
  revert eng. induction pageActions as [|p ps IH]; intros eng; simpl; [done|].
  etrans; [|apply IH]. unfold push_page_action, push_action. simpl. by apply prefix_app_r.
Qed.

Lemma push_page_actions_recording (pageActions : list PageAction) eng :
  recording (fold_left (push_page_action uuidv4) pageActions eng) = recording eng.
Proof.
  revert eng. induction pageActions as [|p ps IH]; intros eng; simpl; [done|]. by rewrite IH.
Qed.

Lemma ordered_of_timestamps {A} (key : A → Z) (l : list A) :
  ordered id (map key l) → ordered key l.
Proof.
  intros H i j x y Hij Hx Hy.
  apply (H i j (key x) (key y) Hij).
  - change (map key l) with (key <$> l). by rewrite list_lookup_fmap, Hx.
  - change (map key l) with (key <$> l). by rewrite list_lookup_fmap, Hy.
Qed.

Lemma ordered_shift {A} (key : A → Z) (c : Z) (l : list A) :
  ordered key l → ordered id (map (λ x, key x - c) l).
Proof.
  intros H i j u v Hij Hu Hv.
  change (map (λ x, key x - c) l) with ((λ x, key x - c) <$> l) in Hu, Hv.
  rewrite list_lookup_fmap in Hu, Hv.
  destruct (l !! i) as [x|] eqn:Hx; [|done]. destruct (l !! j) as [y|] eqn:Hy; [|done].
  simpl in Hu, Hv. simplify_eq. pose proof (H i j x y Hij Hx Hy). simpl. lia.
Qed.
End StopShape.

(** X16: [stopRecording] switches recording off and returns the actions the
    engine already held, untouched and in front, followed by one action for
    each entry of the buffers of the frames that could be read (a frame whose
    evaluation throws contributes nothing); the appended part is in
    non-decreasing time order; the network requests are handed over as they
    are and the duration is measured from the session start.  When the
    engine held no action (no main-frame navigation was seen), the whole
    action list is in non-decreasing time order. *)
Theorem stopRecording_shape
    (uuidv4 : nat → string) (frames : list (option (list PageAction)))
    (now : Z) (page_url : string) (eng : Engine) :
  let out := stopRecording uuidv4 frames now page_url eng in
  recording out.1 = false
  ∧ actions eng `prefix_of` r_actions out.2
  ∧ length (r_actions out.2) = (length (actions eng) + length (concat (omap id frames)))%nat
  ∧ ordered a_timestamp (drop (length (actions eng)) (r_actions out.2))
  ∧ r_networkRequests out.2 = networkRequests eng
  ∧ r_duration out.2 = now - startTime eng
  ∧ (actions eng = [] → ordered a_timestamp (r_actions out.2)).
Proof.
  cbv zeta.
  pose proof (stopRecording_timestamps uuidv4 frames now page_url eng) as Hts.
  assert (Hord : ordered a_timestamp
                   (drop (length (actions eng))
                      (r_actions (stopRecording uuidv4 frames now page_url eng).2))).
  { apply ordered_of_timestamps.
    change (map a_timestamp (drop ?n ?l)) with (a_timestamp <$> drop n l).
    rewrite fmap_drop. change (a_timestamp <$> ?l) with (map a_timestamp l). rewrite Hts.
    rewrite drop_app_length' by (by rewrite length_map).
    apply ordered_shift, sort_by_ordered. }
  split_and!.
  - unfold stopRecording. cbv zeta. simpl. by rewrite push_page_actions_recording.
  - unfold stopRecording. cbv zeta. simpl.
    match goal with |- context [fold_left _ ?ps ?e] =>
      exact (push_page_actions_prefix uuidv4 ps e) end.
  - apply (f_equal (@length Z)) in Hts.
    rewrite length_map, length_app, !length_map in Hts. rewrite Hts. f_equal.
    rewrite (Permutation_length (sort_by_perm p_timestamp (drain_frames frames))).
    by rewrite drain_frames_concat.
  - exact Hord.
  - rewrite (proj2 (proj2 (stopRecording_fields uuidv4 frames now page_url eng))).
    apply stop_networkRequests.
  - unfold stopRecording. cbv zeta. simpl.
    match goal with |- context [fold_left _ ?ps ?e] =>
      by destruct (push_page_actions_timestamps uuidv4 ps e) as [-> _] end.
  - intros Hnil. rewrite Hnil in Hord. exact Hord.
Qed.

Lemma stopRecording_shape_witness :
  let eng := startRecording tally 1000 engine_new in
  let late := {| p_type := click; p_timestamp := 3000; p_selector := Some "#b";
                 p_xpath := None; p_value := None; p_url := None; p_element := None;
                 p_method := None; p_isSwapAction := false; p_isAmountInput := false |} in
  let rec := (stopRecording tally [Some [late]; None; Some [Example3.link_click]] 5000
                "https://dex.example/" eng).2 in
  actions eng = []
  ∧ map a_timestamp (r_actions rec) = [100; 2000]
  ∧ ordered a_timestamp (r_actions rec).
Proof.
  cbv zeta. split; [reflexivity|]. split; [reflexivity|].
  exact (proj2 (proj2 (proj2 (proj2 (proj2 (proj2
           (stopRecording_shape tally _ 5000 "https://dex.example/"
              (startRecording tally 1000 engine_new))))))) eq_refl).
Defined.

(** ** Frame tracking *)

Section Frames.
Implicit Types (frame f : Frame) (frames : list Frame) (page : Page).

Lemma detect_in_frames_Some selector frames f :
  detect_in_frames selector frames = Some f →
  ∃ pre post, frames = pre ++ f :: post
              ∧ f_isMain f = false ∧ f_query f selector = Some true
              ∧ Forall (passed_over selector) pre.
Proof.
  induction frames as [|g frames IH]; simpl; [done|].
  destruct (f_isMain g) eqn:Hmain.
  - intros (pre & post & -> & ?)%IH. exists (g :: pre), post. split; [done|].
    split_and!; try tauto. constructor; [by left|tauto].
  - destruct (found (f_query g selector)) eqn:Hf.
    + intros [= <-]. exists [], frames. split_and!; try done.
      unfold found in Hf. by destruct (f_query g selector) as [[]|].
    + intros (pre & post & -> & ?)%IH. exists (g :: pre), post. split; [done|].
      split_and!; try tauto. constructor; [by right|tauto].
Qed.

Lemma detect_in_frames_None selector frames :
  detect_in_frames selector frames = None → Forall (passed_over selector) frames.
Proof.
  induction frames as [|g frames IH]; simpl; [constructor|].
  destruct (f_isMain g) eqn:Hmain.
  - intros H. constructor; [by left|by apply IH].
  - destruct (found (f_query g selector)) eqn:Hf; [done|].
    intros H. constructor; [by right|by apply IH].
Qed.

Lemma find_frame_Some urlPattern frames f :
  find_frame urlPattern frames = Some f →
  ∃ pre post, frames = pre ++ f :: post
              ∧ JS.includes (f_url f) urlPattern = true
              ∧ Forall (λ g, JS.includes (f_url g) urlPattern = false) pre.
Proof.
  induction frames as [|g frames IH]; simpl; [done|].
  destruct (JS.includes (f_url g) urlPattern) eqn:Hg.
  - intros [= <-]. by exists [], frames.
  - intros (pre & post & -> & ? & ?)%IH. exists (g :: pre), post.
    split_and!; try done. by constructor.
Qed.
End Frames.

(** X17: [detectFrameContext] answers with the page whenever the page's own
    query finds the selector, and whenever no frame other than the main
    frame has it (a query that throws counts as not found); otherwise it
    answers with the first frame, in the order of [page.frames()], that is
    not the main frame and has the selector.  It never answers with the main
    frame object or with a frame that lacks the selector.  [currentFrame]
    changes only when a frame is the answer. *)
Theorem detectFrameContext_spec (page : Page) (selector : string) (currentFrame : FrameOrPage) :
  match detectFrameContext page selector currentFrame with
  | (ThePage, current') =>
      current' = currentFrame
      ∧ (found (pg_query page selector) = true
         ∨ Forall (passed_over selector) (pg_frames page))
  | (AFrame f, current') =>
      current' = AFrame f
      ∧ found (pg_query page selector) = false
      ∧ ∃ pre post, pg_frames page = pre ++ f :: post
                    ∧ f_isMain f = false ∧ f_query f selector = Some true
                    ∧ Forall (passed_over selector) pre
  end.
Proof.
  unfold detectFrameContext. destruct (found (pg_query page selector)) eqn:Hp.
  - split; [done|by left].
  - destruct (detect_in_frames selector (pg_frames page)) as [f|] eqn:Hd.
    + split; [done|]. split; [done|]. by apply detect_in_frames_Some.
    + split; [done|]. right. by apply detect_in_frames_None.
Qed.

Section WaitForFrame.
Implicit Types (turns : list (Z * Page)).

Lemma waitForFrame_found urlPattern timeout startTime turns f :
  waitForFrame urlPattern timeout startTime turns = Some (Some f) →
  ∃ now page, (now, page) ∈ turns ∧ now - startTime < timeout
              ∧ findFrameByUrl page urlPattern = Some f.
Proof.
  induction turns as [|[now page] turns IH]; simpl; [done|].
  destruct (now - startTime <? timeout) eqn:Ht; [|done].
  apply Z.ltb_lt in Ht.
  destruct (findFrameByUrl page urlPattern) as [g|] eqn:Hf.
  - intros [= <-]. exists now, page. split_and!; try done. by left.
  - intros (now' & page' & Hin & ?)%IH. exists now', page'. split; [by right|done].
Qed.

Lemma waitForFrame_expired urlPattern timeout startTime turns :
  waitForFrame urlPattern timeout startTime turns = Some None →
  ∃ now page, (now, page) ∈ turns ∧ timeout ≤ now - startTime.
Proof.
  induction turns as [|[now page] turns IH]; simpl; [done|].
  destruct (now - startTime <? timeout) eqn:Ht.
  - destruct (findFrameByUrl page urlPattern); [done|].
    intros (now' & page' & Hin & ?)%IH. exists now', page'. split; [by right|done].
  - apply Z.ltb_ge in Ht. intros _. exists now, page. split; [by left|done].
Qed.

Lemma waitForFrame_bounded urlPattern timeout startTime turns from :
  paced 100 from turns →
  timeout - (from - startTime) ≤ 100 * (Z.of_nat (length turns) - 1) →
  (0 < length turns)%nat →
  is_Some (waitForFrame urlPattern timeout startTime turns).
Proof.
  revert from. induction turns as [|[now page] turns IH]; intros from Hp Hn Hlen.
  - simpl in Hlen. lia.
  - simpl in Hp. destruct Hp as [Hfrom Hp]. simpl.
    destruct (now - startTime <? timeout) eqn:Ht; [|done].
    apply Z.ltb_lt in Ht.
    destruct (findFrameByUrl page urlPattern); [done|].
    apply (IH (now + 100)); [done| |].
    + simpl length in Hn. lia.
    + destruct turns; [|simpl; lia]. simpl length in Hn. lia.
Qed.
End WaitForFrame.

(** X18: [waitForFrame] returns a frame only if that frame's url contained
    the pattern at a turn of the loop whose clock reading was still within
    the timeout, and it reports "not found" only after reading a clock value
    at least [timeout] past the start.  With turns at least 100 ms apart (the
    delay of the loop), it ends within [timeout / 100 + 2] turns (one turn
    when the timeout is negative). *)
Theorem waitForFrame_spec
    (urlPattern : string) (timeout startTime : Z) (turns : list (Z * Page)) :
  (∀ f, waitForFrame urlPattern timeout startTime turns = Some (Some f) →
        ∃ now page, (now, page) ∈ turns ∧ now - startTime < timeout
                    ∧ findFrameByUrl page urlPattern = Some f
                    ∧ JS.includes (f_url f) urlPattern = true)
  ∧ (waitForFrame urlPattern timeout startTime turns = Some None →
     ∃ now page, (now, page) ∈ turns ∧ timeout ≤ now - startTime)
  ∧ (paced 100 startTime turns →
     Z.max 1 (timeout / 100 + 2) ≤ Z.of_nat (length turns) →
     is_Some (waitForFrame urlPattern timeout startTime turns)).
Proof.
  split_and!.
  - intros f (now & page & Hin & Ht & Hf)%waitForFrame_found.
    exists now, page. split_and!; try done.
    unfold findFrameByUrl in Hf. by apply find_frame_Some in Hf as (? & ? & _ & ? & _).
  - apply waitForFrame_expired.
  - intros Hp Hn. apply (waitForFrame_bounded _ _ _ _ startTime); [done| |lia].
    pose proof (Z.mul_div_le timeout 100 ltac:(lia)).
    pose proof (Z.mod_pos_bound timeout 100 ltac:(lia)).
    pose proof (Z.div_mod timeout 100 ltac:(lia)). lia.
Qed.

Lemma waitForFrame_spec_witness :
  let empty := {| pg_frames := []; pg_query := λ _, Some false |} in
  let turns := [(1000, empty); (1100, empty); (1200, empty); (1300, empty)] in
  paced 100 1000 turns
  ∧ Z.max 1 (200 / 100 + 2) ≤ Z.of_nat (length turns)
  ∧ waitForFrame "wallet" 200 1000 turns = Some None
  ∧ is_Some (waitForFrame "wallet" 200 1000 turns).
Proof.
  cbv zeta.
  match goal with |- ?P ∧ ?Q ∧ _ => assert (Hp : P); [|assert (Hq : Q)] end.
  { simpl. lia. }
  { apply Z.leb_le. reflexivity. }
  split; [exact Hp|]. split; [exact Hq|]. split; [reflexivity|].
  exact (proj2 (proj2 (waitForFrame_spec "wallet" 200 1000 _)) Hp Hq).
Defined.

(** ** Token selection *)

Section TokenDirection.
Implicit Types (a b : RecordedAction) (actions nearby : list RecordedAction).

Lemma direction_cue_to nearby a :
  a ∈ nearby → JS.includes (action_text_lower a) "to" = true →
  Forall (λ b, has_from_cue b = false) nearby →
  direction_cue nearby = Some SELECT_TO.
Proof.
  intros Hin Hto Hall. induction Hall as [|b nearby Hb Hall IH]; [by apply elem_of_nil in Hin|].
  simpl. unfold has_from_cue in Hb. cbv zeta in Hb. rewrite Hb.
  apply elem_of_cons in Hin as [<-|Hin].
  - by rewrite Hto.
  - destruct (JS.includes (action_text_lower b) "to" || _ || _ || _); [done|]. by apply IH.
Qed.

Lemma direction_cue_some nearby a :
  a ∈ nearby → JS.includes (action_text_lower a) "to" = true →
  is_Some (direction_cue nearby).
Proof.
  intros Hin Hto. induction nearby as [|b nearby IH]; [by apply elem_of_nil in Hin|].
  simpl. destruct (JS.includes (action_text_lower b) "from" || _ || _ || _); [done|].
  apply elem_of_cons in Hin as [<-|Hin].
  - by rewrite Hto.
  - destruct (JS.includes (action_text_lower b) "to" || _ || _ || _); [done|]. by apply IH.
Qed.

Lemma nearby_window actions index a :
  actions !! index = Some a →
  a ∈ take (Nat.min (length actions) (index + 5) - (index - 5)) (drop (index - 5) actions).
Proof.
  intros Ha. pose proof (lookup_lt_Some _ _ _ Ha) as Hlt.
  apply (list_elem_of_lookup_2 _ (index - (index - 5))).
  rewrite lookup_take_lt by lia. rewrite lookup_drop.
  replace (index - 5 + (index - (index - 5)))%nat with index by lia. done.
Qed.
End TokenDirection.

(** X19: for a click whose own text contains "to" (as every text with the
    word "token" does), the direction of the token selection is decided by a
    cue word and never by the count of earlier selections; when no action
    of the sequence mentions from, pay, sell or input, the answer is
    SELECT_TO, also for the first selection of a session. *)
Theorem token_direction_cue
    (flow : list SwapAction) (actions : list RecordedAction) (index : nat) (a : RecordedAction) :
  actions !! index = Some a →
  JS.includes (action_text_lower a) "token" = true →
  determineTokenDirection flow actions index = determineTokenDirection [] actions index
  ∧ (Forall (λ b, has_from_cue b = false) actions →
     determineTokenDirection flow actions index = SELECT_TO).
Proof.
  intros Ha Htoken.
  assert (Hto : JS.includes (action_text_lower a) "to" = true)
    by apply (includes_prefix_pattern _ "to" "ken"), Htoken.
  pose proof (nearby_window actions index a Ha) as Hin.
  unfold determineTokenDirection. cbv zeta. split.
  - by destruct (direction_cue_some _ a Hin Hto) as [d ->].
  - intros Hall. rewrite (direction_cue_to _ a Hin Hto); [done|].
    apply Forall_forall. intros b Hb. rewrite Forall_forall in Hall. apply Hall.
    eapply elem_of_sublist; [exact Hb|]. etrans; [apply sublist_take|apply sublist_drop].
Qed.

Lemma token_direction_cue_witness :
  let first := Example1.click_on "1" (Some "#t") "Select token ETH" 10 in
  [first] !! 0%nat = Some first
  ∧ JS.includes (action_text_lower first) "token" = true
  ∧ determineTokenDirection [] [first] 0 = SELECT_TO.
Proof.
  cbv zeta. split; [reflexivity|]. split; [reflexivity|].
  refine (proj2 (token_direction_cue [] [Example1.click_on "1" (Some "#t") "Select token ETH" 10]
                   0 _ eq_refl eq_refl) _).
  constructor; [reflexivity|constructor].
Defined.

Section TokenRegexFacts.

Lemma upper_of_lower (c : ascii) : JS.upper_ascii (JS.lower_ascii c) = JS.upper_ascii c.
Proof. destruct c as [[] [] [] [] [] [] [] []]; reflexivity. Qed.

Lemma matched_prefix (p s : string) :
  JS.startsWith (JS.toLowerCase p) (JS.toLowerCase s) = true →
  JS.toUpperCase (JS.substring0 (String.length p) s) = JS.toUpperCase p
  ∧ JS.startsWith (JS.substring0 (String.length p) s) s = true.
Proof.
  revert s. induction p as [|a p IH]; intros s; simpl.
  - intros _. by destruct s.
  - destruct s as [|b s]; simpl; [done|].
    destruct (Ascii.eqb (JS.lower_ascii a) (JS.lower_ascii b)) eqn:Hab; [|done].
    apply Ascii.eqb_eq in Hab. intros [Hu Hs]%IH.
    unfold JS.substring0 in *. simpl. rewrite Hu, Ascii.eqb_refl. split; [|done].
    f_equal. by rewrite <- (upper_of_lower b), <- Hab, upper_of_lower.
Qed.

Lemma first_alt_Some prev_w s alts m :
  TokenRegex.first_alt prev_w s alts = Some m →
  ∃ alt, alt ∈ alts ∧ m = JS.substring0 (String.length alt) s
         ∧ JS.startsWith (JS.toLowerCase alt) (JS.toLowerCase s) = true.
Proof.
  induction alts as [|alt alts IH]; simpl; [done|].
  destruct (TokenRegex.match_alt_at prev_w s alt) as [m'|] eqn:Hm.
  - intros [= <-]. exists alt. split; [by left|].
    unfold TokenRegex.match_alt_at in Hm. cbv zeta in Hm.
    destruct (_ && _) eqn:Hc in Hm; [|done]. simplify_eq. split; [done|].
    by apply andb_true_iff in Hc as [[_ ?]%andb_true_iff _].
  - intros (alt' & ? & ?)%IH. exists alt'. split; [by right|done].
Qed.

Lemma exec_from_Some prev_w s m :
  TokenRegex.exec_from prev_w s = Some m →
  JS.toUpperCase m ∈ map JS.toUpperCase TokenRegex.symbols ∧ JS.includes s m = true.
Proof.
  revert prev_w. induction s as [|c s IH]; intros prev_w.
  - cbn [TokenRegex.exec_from].
    destruct (TokenRegex.first_alt _ _ _) as [m'|] eqn:Hf; [|done].
    intros [= <-]. apply first_alt_Some in Hf as (alt & Hin & -> & [Hu Hs]%matched_prefix).
    split.
    + rewrite Hu. change (map JS.toUpperCase ?l) with (JS.toUpperCase <$> l).
      by apply list_elem_of_fmap_2.
    + cbn [JS.includes]. by rewrite Hs.
  - cbn [TokenRegex.exec_from].
    destruct (TokenRegex.first_alt _ _ _) as [m'|] eqn:Hf.
    + intros [= <-]. apply first_alt_Some in Hf as (alt & Hin & -> & [Hu Hs]%matched_prefix).
      split.
      * rewrite Hu. change (map JS.toUpperCase ?l) with (JS.toUpperCase <$> l).
        by apply list_elem_of_fmap_2.
      * cbn [JS.includes]. by rewrite Hs.
    + intros [Hu Hi]%IH. split; [done|]. cbn [JS.includes]. rewrite Hi. apply orb_true_r.
Qed.
End TokenRegexFacts.

(** X20: the token pattern only ever yields one of its twenty symbols: a
    match is a piece of the searched text which, in upper case, is one of
    ETH, BTC, ..., SUSHI. *)
Theorem token_regex_symbols (s m : string) :
  TokenRegex.exec s = Some m →
  JS.toUpperCase m ∈ TokenRegex.symbols ∧ JS.includes s m = true.
Proof.
  unfold TokenRegex.exec. intros H%exec_from_Some.
  assert (Hup : map JS.toUpperCase TokenRegex.symbols = TokenRegex.symbols) by reflexivity.
  by rewrite Hup in H.
Qed.

Lemma token_regex_symbols_witness :
  TokenRegex.exec "Select usdc (USD Coin)" = Some "usdc"
  ∧ JS.toUpperCase "usdc" ∈ TokenRegex.symbols.
Proof.
  assert (H : TokenRegex.exec "Select usdc (USD Coin)" = Some "usdc") by reflexivity.
  split; [exact H|].
  exact (proj1 (token_regex_symbols "Select usdc (USD Coin)" "usdc" H)).
Defined.

(** ** Query parameters *)

Section Params.
Implicit Types (o params : list (string * string)) (k key value : string).

Lemma obj_get_set key value k o :
  obj_get k (obj_set key value o) = if String.eqb key k then Some value else obj_get k o.
Proof.
  induction o as [|[k' v'] o IH]; simpl.
  - done.
  - destruct (String.eqb k' key) eqn:Hk'; simpl.
    + apply String.eqb_eq in Hk' as ->. by destruct (String.eqb key k).
    + destruct (String.eqb k' k) eqn:Hkk.
      * apply String.eqb_eq in Hkk as ->. apply String.eqb_neq in Hk'.
        destruct (String.eqb key k) eqn:E; [|done]. apply String.eqb_eq in E. congruence.
      * exact IH.
Qed.

Lemma params_fold_get params o k :
  obj_get k (fold_left (λ acc kv, obj_set kv.1 kv.2 acc) params o)
  = from_option Some (obj_get k o) (last (values_of k params)).
Proof.
  revert o. induction params as [|[key value] params IH]; intros o; [done|].
  cbn [fold_left]. rewrite IH. cbn [fst snd]. rewrite obj_get_set.
  change (values_of k ((key, value) :: params))
    with (match (if String.eqb key k then Some value else None) with
          | Some v => v :: values_of k params
          | None => values_of k params
          end).
  destruct (String.eqb key k); [|done].
  destruct (values_of k params) as [|v l] eqn:Hv; [done|].
  rewrite last_cons_cons. destruct (last (v :: l)) eqn:E; [done|]. by apply last_None in E.
Qed.

Lemma params_fold_NoDup params o :
  NoDup o.*1 → NoDup (fold_left (λ acc kv, obj_set kv.1 kv.2 acc) params o).*1.
Proof.
  revert o. induction params as [|[key value] params IH]; intros o Hnd; [done|].
  cbn [fold_left]. apply IH. by apply obj_set_NoDup.
Qed.
End Params.

(** X21: [extractParams] gives each query key once, with the value of its
    last occurrence in the query (an earlier value of a repeated key is
    overwritten); when the url cannot be parsed the result is empty.  (A
    query key [__proto__] is left aside: assigning it does not create a
    property.) *)
Theorem extractParams_last_wins (new_URL : string → option URL) (url : string) :
  (new_URL url = None → extractParams new_URL url = [])
  ∧ ∀ urlObj, new_URL url = Some urlObj →
      "__proto__" ∉ (searchParams urlObj).*1 →
      NoDup (extractParams new_URL url).*1
      ∧ ∀ key, obj_get key (extractParams new_URL url)
               = last (values_of key (searchParams urlObj)).
Proof.
  unfold extractParams. split; [by intros ->|].
  intros urlObj -> _.
  split; [apply params_fold_NoDup; constructor|].
  intros key. rewrite params_fold_get. by destruct (last _).
Qed.

Lemma extractParams_last_wins_witness :
  let url := "https://x/api/quote?a=1&b=2&a=3" in
  HttpURL.parse url
    = Some {| origin := "https://x"; pathname := "/api/quote";
              searchParams := [("a", "1"); ("b", "2"); ("a", "3")] |}
  ∧ extractParams HttpURL.parse url = [("a", "3"); ("b", "2")]
  ∧ obj_get "a" (extractParams HttpURL.parse url) = Some "3".
Proof.
  cbv zeta.
  assert (H : HttpURL.parse "https://x/api/quote?a=1&b=2&a=3"
              = Some {| origin := "https://x"; pathname := "/api/quote";
                        searchParams := [("a", "1"); ("b", "2"); ("a", "3")] |})
    by reflexivity.
  split; [exact H|]. split; [reflexivity|].
  refine (proj2 (proj2 (extractParams_last_wins HttpURL.parse "https://x/api/quote?a=1&b=2&a=3")
                   _ H _) "a").
  intros Hin. by repeat (apply elem_of_cons in Hin as [Hin|Hin]; [discriminate|]);
    apply elem_of_nil in Hin.
Defined.

Lemma swapFlow_ids_and_order_witness :
  let flow := extractEnhancedSwapFlow Example2.actions in
  map s_id flow = [0; 1; 2]%nat
  ∧ ∃ x y, flow !! 0%nat = Some x ∧ flow !! 1%nat = Some y ∧ ts_or_0 x ≤ ts_or_0 y.
Proof.
  cbv zeta. split; [reflexivity|].
  eexists _, _. split; [reflexivity|]. split; [reflexivity|].
  exact (proj2 (swapFlow_ids_and_order Example2.actions) 0%nat 1%nat _ _
           ltac:(lia) eq_refl eq_refl).
Defined.

Lemma essentialSelectors_amountInput_witness :
  ("submitButton" ∉ selector_roles)
  ∧ extractEssentialSelectors Example2.actions !! "amountInput" = Some "#amount"
  ∧ extractEssentialSelectors Example2.actions !! "submitButton" = None.
Proof.
  assert (H : "submitButton" ∉ selector_roles).
  { unfold selector_roles. intros Hin.
    by repeat (apply elem_of_cons in Hin as [Hin|Hin]; [discriminate|]);
      apply elem_of_nil in Hin. }
  split; [exact H|]. split; [reflexivity|].
  exact (proj2 (essentialSelectors_amountInput Example2.actions) "submitButton" H).
Defined.

(** ** The summary, once more *)

(** X22: the counters of the summary fit together: the original count is
    the number of actions of the recording and splits into the duplicates
    removed and the actions kept by Pass 1; the optimized count is the
    length of the swap flow and at most four times the number of kept
    actions; [swapDetected] says whether the flow is non-empty; and the
    wallet actions are taken from the recording before deduplication, one
    for each action of type wallet. *)
Theorem summary_counts (new_URL : string → option URL) (recording : Recording) :
  let out := optimize new_URL recording in
  let summary := od_summary out in
  sum_originalActions summary = length (r_actions recording)
  ∧ (sum_duplicatesRemoved summary + length (removeDuplicates (r_actions recording)))%nat
    = sum_originalActions summary
  ∧ sum_optimizedActions summary = length (od_swapFlow out)
  ∧ (sum_optimizedActions summary
     ≤ 4 * (sum_originalActions summary - sum_duplicatesRemoved summary))%nat
  ∧ sum_swapDetected summary = negb (bool_decide (od_swapFlow out = []))
  ∧ length (od_walletActions out)
    = length (filter (λ a, a_type a = wallet) (r_actions recording)).
Proof.
  cbv zeta. unfold optimize.
  destruct (detectDexTypeAndComplexity _ _) as [[[dexType swapComplexity] rate] risk].
  cbn [od_summary od_swapFlow od_walletActions sum_originalActions sum_duplicatesRemoved
       sum_optimizedActions sum_swapDetected].
  pose proof (duplicatesRemoved_count (r_actions recording)) as Hcount.
  pose proof (swapFlow_length_budget (removeDuplicates (r_actions recording))) as [_ Hb].
  unfold removeDuplicates in *.
  split_and!; try done.
  - lia.
  - destruct (extractEnhancedSwapFlow _) as [|s l]; [done|].
    repeat case_bool_decide; simpl in *; try done; lia.
  - unfold extractWalletActions. by rewrite length_map.
Qed.
